(** * A shallow embedding of the MySQL query builder (Database.jsx)

    The [DB] class of the repository is a fluent builder: clause methods
    mutate the receiver and return it, terminal methods compile a statement,
    hand it to the mysql2 driver and (for some of them) reset the receiver.

    Embedding choices.
    - The receiver [this] is a record [DB]; clause methods are functions
      [DB -> DB]; asynchronous methods are computations in a small
      state-and-exception monad whose state is the receiver paired with the
      outside [world].  A JavaScript exception keeps every mutation made
      before it was thrown, so the state is returned on both outcomes.
    - The driver (pool and connections) is external.  It is a record of
      oracles answering each request from the history of requests sent so
      far; every request is appended to [sent].
    - [DB.debug] is a field of the [world]; what [console.log] prints goes to
      a separate [console] list the driver never sees.
    - JavaScript numbers are modelled on the integers (counts, offsets and
      identifiers): [Z], and [jsnum] for the results of a division. *)

From Stdlib Require Import ZArith String Ascii List Bool Lia DecimalString.
Import ListNotations.
Local Open Scope string_scope.
Local Open Scope Z_scope.

(** ** JavaScript values *)

Module JS.

(** Scalars that travel as bound parameters, column values and results.
    [VInherited k] is the member [k] that a plain object inherits from
    [Object.prototype] (what [row[k]] yields when [k] is not an own key). *)
Inductive value : Type :=
| VUndef
| VNull
| VBool (b : bool)
| VNum (n : Z)
| VStr (s : string)
| VInherited (k : string).

(** A plain object: its own enumerable string-keyed properties, in the order
    [Object.keys] / [Object.entries] enumerate them. *)
Definition obj : Type := list (string * value).

Definition keys (o : obj) : list string := map fst o.
Definition values (o : obj) : list value := map snd o.

Fixpoint own (k : string) (o : obj) : option value :=
  match o with
  | [] => None
  | (k', v) :: o' => if String.eqb k k' then Some v else own k o'
  end.

(** Property names every plain object inherits from [Object.prototype]. *)
Definition prototype_names : list string :=
  [ "constructor"; "hasOwnProperty"; "isPrototypeOf"; "propertyIsEnumerable";
    "toLocaleString"; "toString"; "valueOf"; "__proto__";
    "__defineGetter__"; "__defineSetter__";
    "__lookupGetter__"; "__lookupSetter__" ].

Definition inherited (k : string) : bool :=
  existsb (String.eqb k) prototype_names.

(** [k in o] *)
Definition has (k : string) (o : obj) : bool :=
  match own k o with
  | Some _ => true
  | None => inherited k
  end.

(** [o[k]] *)
Definition prop (k : string) (o : obj) : value :=
  match own k o with
  | Some v => v
  | None => if inherited k then VInherited k else VUndef
  end.

(** [v === undefined] *)
Definition is_undefined (v : value) : bool :=
  match v with VUndef => true | _ => false end.

(** Truthiness, as [||] tests it. *)
Definition truthy (v : value) : bool :=
  match v with
  | VUndef | VNull => false
  | VBool b => b
  | VNum n => negb (n =? 0)
  | VStr s => negb (String.eqb s "")
  | VInherited _ => true
  end.

(** [a || b] *)
Definition or_else (a b : value) : value := if truthy a then a else b.

(** Template-literal rendering of an integer: [`${n}`]. *)
Definition show (n : Z) : string := NilZero.string_of_int (Z.to_int n).

(** Results of arithmetic that leaves the integers. *)
Inductive jsnum : Type :=
| JNaN
| JInf (negative : bool)
| JFin (n : Z).

(** ToNumber, on the integer fragment: [None] is NaN.  A string converts
    when it is a (possibly empty) run of decimal digits; signed, padded,
    fractional and hexadecimal numerals lie outside the fragment. *)
Definition to_number (v : value) : option Z :=
  match v with
  | VUndef => None
  | VNull => Some 0
  | VBool b => Some (if b then 1 else 0)
  | VNum n => Some n
  | VStr s => option_map Z.of_uint (NilEmpty.uint_of_string s)
  | VInherited _ => None
  end.

(** [Math.ceil(a / b)] for a value [a] and an integer [b]. *)
Definition ceil_div (a : value) (b : Z) : jsnum :=
  match to_number a with
  | None => JNaN
  | Some t =>
      if b =? 0 then
        (if t =? 0 then JNaN else JInf (t <? 0))
      else JFin (- ((- t) / b))
  end.

(** [Error] objects.  [message] is what the wrappers read; [code] stands for
    the extra fields a driver error carries ([code], [errno], ...), which a
    fresh [new Error(msg)] does not have. *)
Record error : Type := mkError { message : string; code : option string }.

(** [new Error(msg)] *)
Definition Error (msg : string) : error := mkError msg None.

End JS.
Import JS.

(** ** Text helpers *)

Definition nl : string := String (ascii_of_nat 10) EmptyString.

(** [xs.join(sep)] *)
Definition array_join (sep : string) (xs : list string) : string :=
  String.concat sep xs.

(** Characters matched by [\s], within ASCII. *)
Definition is_space (c : ascii) : bool :=
  let n := nat_of_ascii c in
  ((9 <=? n) && (n <=? 13))%nat || (n =? 32)%nat.

(** [s.replace(/\s+/g, " ")]: every maximal run of white space becomes one
    blank.  [in_run] tells whether the previous character was white space. *)
Fixpoint collapse (in_run : bool) (s : string) : string :=
  match s with
  | EmptyString => EmptyString
  | String c s' =>
      if is_space c
      then (if in_run then collapse true s' else String " " (collapse true s'))
      else String c (collapse false s')
  end.

Fixpoint trim_left (s : string) : string :=
  match s with
  | String c s' => if is_space c then trim_left s' else s
  | EmptyString => EmptyString
  end.

Fixpoint rev_string (acc s : string) : string :=
  match s with
  | EmptyString => acc
  | String c s' => rev_string (String c acc) s'
  end.

(** [s.trim()] *)
Definition trim (s : string) : string :=
  rev_string "" (trim_left (rev_string "" (trim_left s))).

(** [sql.replace(/\s+/g, " ").trim()] *)
Definition normalize (sql : string) : string := trim (collapse false sql).

(** Number of [?] characters of a text: its positional placeholders, as
    long as no [?] sits inside a quoted literal. *)
Fixpoint placeholders (s : string) : nat :=
  match s with
  | EmptyString => O
  | String c s' =>
      if Ascii.eqb c "?" then S (placeholders s') else placeholders s'
  end.

(** ** The builder: state and clause methods *)

(** A checked-out connection. *)
Definition conn : Type := nat.

(** The fields of a [DB] instance. *)
Record DB : Type := mkDB {
  table : string;
  _trx : option conn;
  selectCols : string;
  joins : list string;
  wheres : list string;
  params : list value;
  order : string;
  limitVal : string
}.

(** [reset()] leaves [table] and [_trx] alone. *)
Definition reset (this : DB) : DB :=
  {| table := table this; _trx := _trx this;
     selectCols := "*"; joins := []; wheres := []; params := [];
     order := ""; limitVal := "" |}.

(** [new DB(table)] *)
Definition new_DB (t : string) : DB :=
  reset {| table := t; _trx := None;
           selectCols := ""; joins := []; wheres := []; params := [];
           order := ""; limitVal := "" |}.

(** [DB.table(name)] *)
Definition DB_table (name : string) : DB := new_DB name.

(** The argument of [select]: an array of columns or anything else. *)
Inductive columns : Type :=
| ColArray (cs : list string)
| ColText (c : string).

Definition select (cols : option columns) (this : DB) : DB :=
  let cols := match cols with Some c => c | None => ColText "*" end in
  {| table := table this; _trx := _trx this;
     selectCols := match cols with
                   | ColArray cs => array_join ", " cs
                   | ColText c => c
                   end;
     joins := joins this; wheres := wheres this; params := params this;
     order := order this; limitVal := limitVal this |}.

Definition join (tbl first operator second : string) (type : option string)
    (this : DB) : DB :=
  let type := match type with Some t => t | None => "INNER" end in
  {| table := table this; _trx := _trx this; selectCols := selectCols this;
     joins := joins this ++
                [type ++ " JOIN " ++ tbl ++ " ON " ++ first ++ " " ++ operator
                      ++ " " ++ second];
     wheres := wheres this; params := params this;
     order := order this; limitVal := limitVal this |}.

Definition leftJoin (tbl first operator second : string) : DB -> DB :=
  join tbl first operator second (Some "LEFT").

Definition rightJoin (tbl first operator second : string) : DB -> DB :=
  join tbl first operator second (Some "RIGHT").

Definition where_ (column operator : string) (v : value) (this : DB) : DB :=
  {| table := table this; _trx := _trx this; selectCols := selectCols this;
     joins := joins this;
     wheres := wheres this ++ [column ++ " " ++ operator ++ " ?"];
     params := params this ++ [v];
     order := order this; limitVal := limitVal this |}.

(** [Object.entries(data).forEach(([k, v]) => this.where(k, "=", v))] *)
Definition whereEqual (data : option obj) (this : DB) : DB :=
  let data := match data with Some d => d | None => [] end in
  fold_left (fun acc kv => where_ (fst kv) "=" (snd kv) acc) data this.

Definition orderBy (column : string) (dir : option string) (this : DB) : DB :=
  let dir := match dir with Some d => d | None => "ASC" end in
  {| table := table this; _trx := _trx this; selectCols := selectCols this;
     joins := joins this; wheres := wheres this; params := params this;
     order := "ORDER BY " ++ column ++ " " ++ dir;
     limitVal := limitVal this |}.

Definition limit (count : Z) (offset : option Z) (this : DB) : DB :=
  {| table := table this; _trx := _trx this; selectCols := selectCols this;
     joins := joins this; wheres := wheres this; params := params this;
     order := order this;
     limitVal := match offset with
                 | Some o => "LIMIT " ++ show o ++ ", " ++ show count
                 | None => "LIMIT " ++ show count
                 end |}.

(** ** The statement compiler *)

(** The local [where] of [buildSelect]. *)
Definition where_clause (this : DB) : string :=
  match wheres this with
  | [] => ""
  | _ => "WHERE " ++ array_join " AND " (wheres this)
  end.

Definition buildSelect (this : DB) : string :=
  nl ++ "      SELECT " ++ selectCols this ++
  nl ++ "      FROM " ++ table this ++
  nl ++ "      " ++ array_join " " (joins this) ++
  nl ++ "      " ++ where_clause this ++
  nl ++ "      " ++ order this ++
  nl ++ "      " ++ limitVal this ++
  nl ++ "    ".

(** ** The outside world: driver, trace and console *)

(** Where a statement is sent: [pool.execute] or [conn.execute]. *)
Inductive target : Type :=
| OnPool
| OnConn (c : conn).

(** Requests made to the driver, in the order they are made. *)
Inductive event : Type :=
| EvGetConnection
| EvBeginTransaction (c : conn)
| EvExecute (t : target) (sql : string) (ps : list value)
| EvCommit (c : conn)
| EvRollback (c : conn)
| EvRelease (c : conn).

(** First component of what [execute] resolves to: the row array of a
    query, or the result header of a write. *)
Inductive payload : Type :=
| Rows (rs : list obj)
| Header (h : obj).

(** [execute] resolves to the pair [[payload, fields]]. *)
Definition reply : Type := payload * option (list string).

(** [p[0]] then [?? null] / [?.]: the first row when there is one. *)
Definition first_row (p : payload) : option obj :=
  match p with
  | Rows (r :: _) => Some r
  | _ => None
  end.

(** [p.k] on a result header; a row array has no such member. *)
Definition member (k : string) (p : payload) : value :=
  match p with
  | Header h => JS.prop k h
  | Rows _ => VUndef
  end.

(** [p[0]?.total] *)
Definition total_of (p : payload) : value :=
  match first_row p with
  | Some r => JS.prop "total" r
  | None => VUndef
  end.

(** The driver answers a request from the requests already sent. *)
Record driver : Type := mkDriver {
  execute : list event -> target -> string -> list value -> error + reply;
  getConnection : list event -> error + conn;
  beginTransaction : list event -> conn -> option error;
  commit : list event -> conn -> option error
}.

Record world : Type := mkWorld {
  debug : bool;
  sent : list event;
  console : list (string * list value)
}.

Definition send (e : event) (w : world) : world :=
  {| debug := debug w; sent := sent w ++ [e]; console := console w |}.

Definition print (sql : string) (ps : list value) (w : world) : world :=
  {| debug := debug w; sent := sent w; console := console w ++ [(sql, ps)] |}.

Definition set_debug (d : bool) (w : world) : world :=
  {| debug := d; sent := sent w; console := console w |}.

(** ** Computations that may throw *)

Inductive outcome (A : Type) : Type :=
| Ret (a : A)
| Throw (e : error).
Arguments Ret {A} a.
Arguments Throw {A} e.

Definition M (S A : Type) : Type := S -> outcome A * S.

Definition ret {S A} (a : A) : M S A := fun s => (Ret a, s).

Definition throw {S A} (e : error) : M S A := fun s => (Throw e, s).

Definition bind {S A B} (m : M S A) (k : A -> M S B) : M S B :=
  fun s =>
    match m s with
    | (Ret a, s') => k a s'
    | (Throw e, s') => (Throw e, s')
    end.

Notation "x <- m ;; k" := (bind m (fun x => k))
  (at level 61, m at next level, right associativity).
Notation "m ;;; k" := (bind m (fun _ => k))
  (at level 61, right associativity).

(** [try { m } catch (err) { h err }] *)
Definition try_catch {S A} (m : M S A) (h : error -> M S A) : M S A :=
  fun s =>
    match m s with
    | (Ret a, s') => (Ret a, s')
    | (Throw e, s') => h e s'
    end.

(** [try { m } finally { fin }]: [fin] runs on both outcomes and a throw of
    its own replaces the outcome of [m]. *)
Definition try_finally {S A} (m : M S A) (fin : M S unit) : M S A :=
  fun s =>
    match m s with
    | (r, s') =>
        match fin s' with
        | (Ret _, s'') => (r, s'')
        | (Throw e, s'') => (Throw e, s'')
        end
    end.

(** The receiver of an instance method. *)
Definition this_ : M (DB * world) DB := fun s => (Ret (fst s), s).

(** A mutation of the receiver. *)
Definition mutate (f : DB -> DB) : M (DB * world) unit :=
  fun s => (Ret tt, (f (fst s), snd s)).

(** A static computation run from inside an instance method. *)
Definition lift {A} (m : M world A) : M (DB * world) A :=
  fun s => match m (snd s) with (r, w) => (r, (fst s, w)) end.

(** An instance method called on a builder the caller does not keep. *)
Definition on {A} (db : DB) (m : M (DB * world) A) : M world A :=
  fun w => match m (db, w) with (r, s) => (r, snd s) end.

Section Database.

Variable drv : driver.

(** *** Driver primitives *)

Definition driver_execute (t : target) (sql : string) (ps : list value)
    : M world reply :=
  fun w =>
    (match execute drv (sent w) t sql ps with
     | inl e => Throw e
     | inr r => Ret r
     end, send (EvExecute t sql ps) w).

Definition pool_execute := driver_execute OnPool.
Definition conn_execute (c : conn) := driver_execute (OnConn c).

Definition pool_getConnection : M world conn :=
  fun w =>
    (match getConnection drv (sent w) with
     | inl e => Throw e
     | inr c => Ret c
     end, send EvGetConnection w).

Definition conn_beginTransaction (c : conn) : M world unit :=
  fun w =>
    (match beginTransaction drv (sent w) c with
     | Some e => Throw e
     | None => Ret tt
     end, send (EvBeginTransaction c) w).

Definition conn_commit (c : conn) : M world unit :=
  fun w =>
    (match commit drv (sent w) c with
     | Some e => Throw e
     | None => Ret tt
     end, send (EvCommit c) w).

Definition conn_release (c : conn) : M world unit :=
  fun w => (Ret tt, send (EvRelease c) w).

Definition console_log (sql : string) (ps : list value) : M world unit :=
  fun w => (Ret tt, print sql ps w).

Definition DB_debug : M world bool := fun w => (Ret (debug w), w).

(** *** 2.2 Core executor *)

Definition _execute (sql : string) (ps : option (list value))
    : M (DB * world) reply :=
  let ps := match ps with Some p => p | None => [] end in
  d <- lift DB_debug ;;
  (if d then lift (console_log (normalize sql) ps) else ret tt) ;;;
  this <- this_ ;;
  match _trx this with
  | Some c => lift (conn_execute c sql ps)
  | None => lift (pool_execute sql ps)
  end.

(** *** 2.7 Read *)

Definition get : M (DB * world) payload :=
  try_finally
    (try_catch
       (this <- this_ ;;
        let sql := buildSelect this in
        r <- _execute sql (Some (params this)) ;;
        ret (fst r))
       (fun err => throw (Error ("GET failed: " ++ message err))))
    (mutate reset).

(** [null] is [None]. *)
Definition first : M (DB * world) (option obj) :=
  mutate (limit 1 None) ;;;
  rows <- get ;;
  ret (first_row rows).

(** *** 2.13 Count *)

Definition count_sql (column : string) (this : DB) : string :=
  nl ++ "        SELECT COUNT(" ++ column ++ ") as total" ++
  nl ++ "        FROM " ++ table this ++
  nl ++ "        " ++ array_join " " (joins this) ++
  nl ++ "        " ++ where_clause this ++
  nl ++ "      ".

Definition count (column : option string) : M (DB * world) value :=
  let column := match column with Some c => c | None => "*" end in
  try_finally
    (try_catch
       (this <- this_ ;;
        let sql := count_sql column this in
        r <- _execute sql (Some (params this)) ;;
        ret (or_else (total_of (fst r)) (VNum 0)))
       (fun err => throw (Error ("COUNT failed: " ++ message err))))
    (mutate reset).

(** [count > 0] *)
Definition gt_zero (v : value) : bool :=
  match to_number v with
  | Some n => 0 <? n
  | None => false
  end.

Definition exists_ : M (DB * world) bool :=
  c <- count None ;;
  ret (gt_zero c).

(** *** 2.8 Write *)

(** The first entry whose value is [undefined], as the [for...of] loop of
    [insert] meets it. *)
Fixpoint first_undefined (entries : obj) : option string :=
  match entries with
  | [] => None
  | (key, v) :: rest =>
      if is_undefined v then Some key else first_undefined rest
  end.

Definition insert_sql (ks : list string) (this : DB) : string :=
  nl ++ "        INSERT INTO " ++ table this ++ " (" ++ array_join ", " ks ++ ")" ++
  nl ++ "        VALUES (" ++ array_join ", " (map (fun _ => "?") ks) ++ ")" ++
  nl ++ "      ".

Definition insert (data : option obj) : M (DB * world) value :=
  let data := match data with Some d => d | None => [] end in
  try_catch
    (match first_undefined data with
     | Some key =>
         throw (Error ("Undefined value for column: " ++ key ++ "-undefined"))
     | None => ret tt
     end ;;;
     this <- this_ ;;
     let sql := insert_sql (keys data) this in
     r <- _execute sql (Some (values data)) ;;
     ret (member "insertId" (fst r)))
    (fun err =>
       this <- this_ ;;
       throw (Error ("INSERT[" ++ table this ++ "] failed: " ++ message err))).

(** The argument of [insertBulk]: an array of plain objects, or something
    [Array.isArray] rejects. *)
Inductive bulk_arg : Type :=
| NotArray
| RowArray (rows : list obj).

Definition dq : string := String (ascii_of_nat 34) EmptyString.

(** The inner loop of the validation: the first key of [ks] that row [i]
    lacks or holds as [undefined]. *)
Fixpoint check_row (ks : list string) (i : nat) (row : obj) : option error :=
  match ks with
  | [] => None
  | key :: ks' =>
      if negb (has key row) then
        Some (Error ("Missing column " ++ dq ++ key ++ dq ++ " in row "
                       ++ show (Z.of_nat i)))
      else if is_undefined (JS.prop key row) then
        Some (Error ("Undefined value for column " ++ dq ++ key ++ dq
                       ++ " in row " ++ show (Z.of_nat i)))
      else check_row ks' i row
  end.

(** The outer loop, over the rows from index [i] on. *)
Fixpoint check_rows (ks : list string) (i : nat) (rows : list obj)
    : option error :=
  match rows with
  | [] => None
  | row :: rows' =>
      match check_row ks i row with
      | Some e => Some e
      | None => check_rows ks (S i) rows'
      end
  end.

Definition insertBulk_sql (ks : list string) (rows : list obj) (this : DB)
    : string :=
  let placeholdersPerRow :=
    "(" ++ array_join ", " (map (fun _ => "?") ks) ++ ")" in
  let placeholders := array_join ", " (map (fun _ => placeholdersPerRow) rows) in
  nl ++ "          INSERT INTO " ++ table this ++ " (" ++ array_join ", " ks ++ ")" ++
  nl ++ "          VALUES " ++ placeholders ++
  nl ++ "        ".

(** [rows.flatMap(row => keys.map(k => row[k]))] *)
Definition flatten_values (ks : list string) (rows : list obj) : list value :=
  flat_map (fun row => map (fun k => JS.prop k row) ks) rows.

Definition insertBulk (rows : option bulk_arg) : M (DB * world) value :=
  let rows := match rows with Some r => r | None => RowArray [] end in
  try_catch
    (match rows with
     | NotArray | RowArray [] =>
         throw (Error "insertBulk requires a non-empty array")
     | RowArray ((row0 :: _) as rs) =>
         let ks := keys row0 in
         match check_rows ks 0 rs with
         | Some e => throw e
         | None =>
             this <- this_ ;;
             let sql := insertBulk_sql ks rs this in
             let vals := flatten_values ks rs in
             r <- _execute sql (Some vals) ;;
             ret (member "affectedRows" (fst r))
         end
     end)
    (fun err => throw (Error ("BULK INSERT failed: " ++ message err))).

Definition update_sql (data : obj) (this : DB) : string :=
  let set := array_join ", " (map (fun k => k ++ "=?") (keys data)) in
  nl ++ "        UPDATE " ++ table this ++
  nl ++ "        SET " ++ set ++
  nl ++ "        WHERE " ++ array_join " AND " (wheres this) ++
  nl ++ "      ".

Definition update (data : option obj) : M (DB * world) value :=
  let data := match data with Some d => d | None => [] end in
  this <- this_ ;;
  match wheres this with
  | [] => throw (Error "UPDATE requires WHERE")
  | _ =>
      try_finally
        (this <- this_ ;;
         let sql := update_sql data this in
         let ps := (values data ++ params this)%list in
         r <- _execute sql (Some ps) ;;
         ret (member "affectedRows" (fst r)))
        (mutate reset)
  end.

Definition delete_sql (this : DB) : string :=
  nl ++ "        DELETE FROM " ++ table this ++
  nl ++ "        WHERE " ++ array_join " AND " (wheres this) ++
  nl ++ "      ".

Definition delete : M (DB * world) value :=
  this <- this_ ;;
  match wheres this with
  | [] => throw (Error "DELETE requires WHERE")
  | _ =>
      try_finally
        (this <- this_ ;;
         let sql := delete_sql this in
         r <- _execute sql (Some (params this)) ;;
         ret (member "affectedRows" (fst r)))
        (mutate reset)
  end.

Definition truncate : M (DB * world) reply :=
  this <- this_ ;;
  _execute ("TRUNCATE TABLE " ++ table this) None.

(** *** 2.9 Pagination *)

Record page_meta : Type := mkMeta {
  total : value;
  perPage : Z;
  currentPage : Z;
  lastPage : jsnum
}.

Record page_result : Type := mkPage {
  data : payload;
  meta : page_meta
}.

Definition paginate_count_sql (this : DB) : string :=
  nl ++ "      SELECT COUNT(*) as total" ++
  nl ++ "      FROM " ++ table this ++
  nl ++ "      " ++ array_join " " (joins this) ++
  nl ++ "      " ++ where_clause this ++
  nl ++ "    ".

Definition paginate (page per_page : option Z) : M (DB * world) page_result :=
  let page := match page with Some p => p | None => 1 end in
  let per_page := match per_page with Some p => p | None => 10 end in
  let offset := (page - 1) * per_page in
  this <- this_ ;;
  let countSql := paginate_count_sql this in
  r <- _execute countSql (Some (params this)) ;;
  let total := or_else (total_of (fst r)) (VNum 0) in
  mutate (limit per_page (Some offset)) ;;;
  data <- get ;;
  ret {| data := data;
         meta := {| total := total; perPage := per_page; currentPage := page;
                    lastPage := ceil_div total per_page |} |}.

(** *** 2.10 Raw SQL *)

Definition sql (query : string) (ps : option (list value)) : M world payload :=
  let ps := match ps with Some p => p | None => [] end in
  r <- pool_execute query ps ;;
  ret (fst r).

(** *** 2.11 Transaction *)

(** The object handed to the unit of work. *)
Record trx : Type := mkTrx {
  trx_table : string -> DB;
  trx_sql : string -> option (list value) -> M world reply
}.

Definition set_trx (c : conn) (db : DB) : DB :=
  {| table := table db; _trx := Some c; selectCols := selectCols db;
     joins := joins db; wheres := wheres db; params := params db;
     order := order db; limitVal := limitVal db |}.

Definition make_trx (c : conn) : trx :=
  {| trx_table := fun name => set_trx c (new_DB name);
     trx_sql := fun q p =>
       conn_execute c q (match p with Some p => p | None => [] end) |}.

Definition transaction {A} (callback : trx -> M world A) : M world A :=
  c <- pool_getConnection ;;
  try_finally
    (conn_beginTransaction c ;;;
     result <- callback (make_trx c) ;;
     conn_commit c ;;;
     ret result)
    (conn_release c).

End Database.

(** ** Vocabulary of the properties *)

(** The ternary of [_execute]: the connection of the transaction when the
    builder carries one, the pool otherwise. *)
Definition route (this : DB) : target :=
  match _trx this with
  | Some c => OnConn c
  | None => OnPool
  end.

(** What [_execute] does to the world before it calls the driver. *)
Definition logged (sql : string) (ps : list value) (w : world) : world :=
  if debug w then print (normalize sql) ps w else w.

(** The driver's answer as an outcome. *)
Definition answer {A} (r : error + A) : outcome A :=
  match r with
  | inl e => Throw e
  | inr a => Ret a
  end.


(** One call of a clause method. *)
Inductive clause : Type :=
| Where (column operator : string) (v : value)
| WhereEqual (data : option obj)
| Join (tbl first operator second : string) (type : option string)
| LeftJoin (tbl first operator second : string)
| RightJoin (tbl first operator second : string)
| Select (cols : option columns)
| OrderBy (column : string) (dir : option string)
| Limit (count : Z) (offset : option Z).

Definition call (c : clause) : DB -> DB :=
  match c with
  | Where column operator v => where_ column operator v
  | WhereEqual data => whereEqual data
  | Join tbl first operator second type => join tbl first operator second type
  | LeftJoin tbl first operator second => leftJoin tbl first operator second
  | RightJoin tbl first operator second => rightJoin tbl first operator second
  | Select cols => select cols
  | OrderBy column dir => orderBy column dir
  | Limit count offset => limit count offset
  end.

(** A chain of clause calls, leftmost first. *)
Definition chain (cs : list clause) (this : DB) : DB :=
  fold_left (fun b c => call c b) cs this.

(** A predicate as the caller gave it: column, operator, bound value. *)
Record predicate : Type := mkPred {
  pred_column : string;
  pred_operator : string;
  pred_value : value
}.

Definition equalities (data : obj) : list predicate :=
  map (fun kv => mkPred (fst kv) "=" (snd kv)) data.

(** The predicates one clause call contributes, in order. *)
Definition pushed (c : clause) : list predicate :=
  match c with
  | Where column operator v => [mkPred column operator v]
  | WhereEqual (Some data) => equalities data
  | _ => []
  end.

Definition predicates (cs : list clause) : list predicate :=
  flat_map pushed cs.

Definition fragment (p : predicate) : string :=
  pred_column p ++ " " ++ pred_operator p ++ " ?".

(** [join] of a list cut at one of its elements: what precedes the element
    (with its separator), the element, what follows. *)
Definition join_head (sep : string) (xs : list string) : string :=
  match xs with
  | [] => ""
  | _ => array_join sep xs ++ sep
  end.

Definition join_tail (sep : string) (xs : list string) : string :=
  match xs with
  | [] => ""
  | _ => sep ++ array_join sep xs
  end.

(** The caller's own text brings no [?] of its own. *)
Definition plain (p : predicate) : bool :=
  (placeholders (pred_column p) =? 0)%nat
  && (placeholders (pred_operator p) =? 0)%nat.

(** Two runs that cannot be told apart by the caller or by the driver:
    same outcome, same receiver afterwards, same requests sent. *)
Definition same_run {A} (r1 r2 : outcome A * (DB * world)) : Prop :=
  fst r1 = fst r2
  /\ fst (snd r1) = fst (snd r2)
  /\ sent (snd (snd r1)) = sent (snd (snd r2)).

(** A computation is blind to the console when two runs from worlds with the
    same trace, whatever their flag and console, are the same run. *)
Definition blind {A} (m : M (DB * world) A) : Prop :=
  forall this w1 w2,
    sent w1 = sent w2 -> same_run (m (this, w1)) (m (this, w2)).

(** The world in which the unit of work starts. *)
Definition entered (c : conn) (w : world) : world :=
  send (EvBeginTransaction c) (send EvGetConnection w).

Definition is_commit (e : event) : bool :=
  match e with EvCommit _ => true | _ => false end.

Definition is_rollback (e : event) : bool :=
  match e with EvRollback _ => true | _ => false end.

(** *** Further vocabulary *)

(** The join fragment one clause call contributes. *)
Definition joined (c : clause) : list string :=
  match c with
  | Join tbl first operator second type =>
      [(match type with Some t => t | None => "INNER" end)
         ++ " JOIN " ++ tbl ++ " ON " ++ first ++ " " ++ operator ++ " " ++ second]
  | LeftJoin tbl first operator second =>
      ["LEFT JOIN " ++ tbl ++ " ON " ++ first ++ " " ++ operator ++ " " ++ second]
  | RightJoin tbl first operator second =>
      ["RIGHT JOIN " ++ tbl ++ " ON " ++ first ++ " " ++ operator ++ " " ++ second]
  | _ => []
  end.

Definition is_select (c : clause) : bool :=
  match c with Select _ => true | _ => false end.

Definition is_orderBy (c : clause) : bool :=
  match c with OrderBy _ _ => true | _ => false end.

Definition is_limit (c : clause) : bool :=
  match c with Limit _ _ => true | _ => false end.

(** No call of the given kind in a chain. *)
Definition none_of (kind : clause -> bool) (cs : list clause) : bool :=
  forallb (fun c => negb (kind c)) cs.

(** Row [row] gives every column of [ks] a value other than [undefined]. *)
Definition complete (ks : list string) (row : obj) : bool :=
  forallb (fun k => has k row && negb (is_undefined (JS.prop k row))) ks.

(** A text without [?]. *)
Definition literal (s : string) : bool := (placeholders s =? 0)%nat.

(** The characters of a text that are not white space, in order. *)
Fixpoint solid (s : string) : string :=
  match s with
  | EmptyString => EmptyString
  | String c s' => if is_space c then solid s' else String c (solid s')
  end.

(** Every white-space character of a text is a blank. *)
Fixpoint one_line (s : string) : bool :=
  match s with
  | EmptyString => true
  | String c s' => (negb (is_space c) || Ascii.eqb c " ") && one_line s'
  end.

(** The requests a run added to the trace [before]. *)
Definition added (before : list event) (after : list event) : list event :=
  skipn (length before) after.

Definition is_release (e : event) : bool :=
  match e with EvRelease _ => true | _ => false end.

(** Every text a clause call passes is free of [?]. *)
Definition clean (c : clause) : bool :=
  match c with
  | Where column operator _ => literal column && literal operator
  | WhereEqual (Some data) => forallb literal (keys data)
  | WhereEqual None => true
  | Join tbl first operator second type =>
      literal tbl && literal first && literal operator && literal second
      && literal (match type with Some t => t | None => "INNER" end)
  | LeftJoin tbl first operator second
  | RightJoin tbl first operator second =>
      literal tbl && literal first && literal operator && literal second
  | Select (Some (ColArray cs)) => forallb literal cs
  | Select (Some (ColText c)) => literal c
  | Select None => true
  | OrderBy column dir =>
      literal column && literal (match dir with Some d => d | None => "ASC" end)
  | Limit _ _ => true
  end.

(** Total number of placeholders of a list of texts. *)
Definition marks (xs : list string) : nat := list_sum (map placeholders xs).

(** The builder holds one bound parameter per placeholder of its predicate
    fragments, and no placeholder anywhere else. *)
Definition aligned (this : DB) : Prop :=
  placeholders (table this) = O
  /\ placeholders (selectCols this) = O
  /\ marks (joins this) = O
  /\ marks (wheres this) = length (params this)
  /\ placeholders (order this) = O
  /\ placeholders (limitVal this) = O.

(** The integers a JavaScript number holds exactly
    ([Number.MAX_SAFE_INTEGER] is [2 ^ 53 - 1]); on them the arithmetic and
    the rendering of this file are those of the code. *)
Definition safe_integer (n : Z) : Prop := - 2 ^ 53 < n < 2 ^ 53.


(** ** Fixtures *)

Module Fixtures.

Definition fresh_world : world := {| debug := false; sent := []; console := [] |}.

(** Every statement succeeds with an empty result; connection 7 is handed
    out; begin and commit succeed. *)
Definition quiet : driver :=
  {| execute := fun _ _ _ _ => inr (Rows [], None);
     getConnection := fun _ => inr 7%nat;
     beginTransaction := fun _ _ => None;
     commit := fun _ _ => None |}.

Definition user_row (id : Z) : obj := [("id", VNum id); ("status", VStr "active")].

(** A table with 25 matching rows: the first statement (the COUNT) is
    answered 25, later ones get the ten rows of the second page. *)
Definition twenty_five : driver :=
  {| execute := fun history _ _ _ =>
       match history with
       | [] => inr (Rows [[("total", VNum 25)]], Some ["total"])
       | _ => inr (Rows (map user_row [11; 12; 13; 14; 15; 16; 17; 18; 19; 20]),
                   Some ["id"; "status"])
       end;
     getConnection := fun _ => inr 7%nat;
     beginTransaction := fun _ _ => None;
     commit := fun _ _ => None |}.

(** Writes answer with a result header. *)
Definition writer : driver :=
  {| execute := fun _ _ _ _ =>
       inr (Header [("insertId", VNum 1); ("affectedRows", VNum 2)], None);
     getConnection := fun _ => inr 7%nat;
     beginTransaction := fun _ _ => None;
     commit := fun _ _ => None |}.

Definition active_users : DB :=
  where_ "status" "=" (VStr "active") (DB_table "users").

(** [DB.table("users").where("age", "BETWEEN ? AND", 5)] *)
Definition between : DB :=
  where_ "age" "BETWEEN ? AND" (VNum 5) (DB_table "users").

(** [DB.table("users").select(["id"]).orderBy("id")], no predicate. *)
Definition ordered_users : DB :=
  orderBy "id" None (select (Some (ColArray ["id"])) (DB_table "users")).

(** The unit of work of the README (example 18) with its last line
    uncommented: two inserts, then [throw new Error("Fail Transaction")]. *)
Definition readme_work (drv : driver) (t : trx) : M world unit :=
  userId <- on (trx_table t "users")
              (insert drv (Some [("name", VStr "Transaction User");
                                 ("email", VStr "trx@test.com");
                                 ("status", VStr "active");
                                 ("role", VStr "user")])) ;;
  on (trx_table t "profiles")
     (insert drv (Some [("user_id", userId);
                        ("bio", VStr "Created inside transaction")])) ;;;
  throw (Error "Fail Transaction").

(** Row 1 carries a column row 0 does not have. *)
Definition ragged_rows : list obj :=
  [ [("a", VNum 1)]; [("a", VNum 2); ("b", VNum 3)] ].

(** Row 2 lacks column [b] of row 0. *)
Definition short_rows : list obj :=
  [ [("a", VNum 1); ("b", VNum 1)];
    [("a", VNum 2); ("b", VNum 2)];
    [("a", VNum 3)] ].

(** Every statement fails with a driver error carrying a code. *)
Definition refusing : driver :=
  {| execute := fun _ _ _ _ =>
       inl (mkError "Duplicate entry" (Some "ER_DUP_ENTRY"));
     getConnection := fun _ => inr 7%nat;
     beginTransaction := fun _ _ => None;
     commit := fun _ _ => None |}.

(** The pool has no connection to give. *)
Definition exhausted : driver :=
  {| execute := fun _ _ _ _ => inr (Rows [], None);
     getConnection := fun _ => inl (mkError "Too many connections" (Some "ER_CON_COUNT_ERROR"));
     beginTransaction := fun _ _ => None;
     commit := fun _ _ => None |}.

(** Begin fails on the connection handed out. *)
Definition no_begin : driver :=
  {| execute := fun _ _ _ _ => inr (Rows [], None);
     getConnection := fun _ => inr 7%nat;
     beginTransaction := fun _ _ => Some (mkError "Lost connection" (Some "PROTOCOL_CONNECTION_LOST"));
     commit := fun _ _ => None |}.

(** Commit fails. *)
Definition no_commit : driver :=
  {| execute := fun _ _ _ _ =>
       inr (Header [("insertId", VNum 1); ("affectedRows", VNum 1)], None);
     getConnection := fun _ => inr 7%nat;
     beginTransaction := fun _ _ => None;
     commit := fun _ _ => Some (mkError "Deadlock found" (Some "ER_LOCK_DEADLOCK")) |}.

(** The COUNT is answered 25, the statement after it fails. *)
Definition count_only : driver :=
  {| execute := fun history _ _ _ =>
       match history with
       | [] => inr (Rows [[("total", VNum 25)]], Some ["total"])
       | _ => inl (mkError "Unknown column" (Some "ER_BAD_FIELD_ERROR"))
       end;
     getConnection := fun _ => inr 7%nat;
     beginTransaction := fun _ _ => None;
     commit := fun _ _ => None |}.

(** A unit of work that inserts one row and returns its identifier. *)
Definition one_insert (drv : driver) (t : trx) : M world value :=
  on (trx_table t "users") (insert drv (Some [("name", VStr "x")])).

Definition debugging : world := {| debug := true; sent := []; console := [] |}.

(** The COUNT is answered 25; the statement after it is refused, as MySQL
    refuses a negative offset. *)
Definition strict : driver :=
  {| execute := fun history _ _ _ =>
       match history with
       | [] => inr (Rows [[("total", VNum 25)]], Some ["total"])
       | _ => inl (mkError "You have an error in your SQL syntax"
                     (Some "ER_PARSE_ERROR"))
       end;
     getConnection := fun _ => inr 7%nat;
     beginTransaction := fun _ _ => None;
     commit := fun _ _ => None |}.

End Fixtures.

(** From here on [++] appends lists; texts are appended with [%string]. *)
Local Open Scope list_scope.

(** ** The executor *)

Section Executor.

Variable drv : driver.

Lemma sent_logged (sql : string) (ps : list value) (w : world) :
  sent (logged sql ps w) = sent w.
Proof. unfold logged. destruct (debug w); reflexivity. Qed.

Lemma sent_send (e : event) (w : world) : sent (send e w) = sent w ++ [e].
Proof. reflexivity. Qed.

(** One run of [_execute]: the log, then exactly one request, routed by
    [_trx]; the receiver is not touched. *)
Lemma _execute_run (sql : string) (ps : list value) (this : DB) (w : world) :
  _execute drv sql (Some ps) (this, w) =
  (answer (execute drv (sent w) (route this) sql ps),
   (this, send (EvExecute (route this) sql ps) (logged sql ps w))).
Proof.
  unfold _execute, bind, lift, DB_debug, console_log, this_, ret, logged, route,
    pool_execute, conn_execute, driver_execute, answer.
  cbn. destruct (debug w); cbn; destruct (_trx this); cbn; reflexivity.
Qed.

Lemma _execute_default (sql : string) (s : DB * world) :
  _execute drv sql None s = _execute drv sql (Some []) s.
Proof. reflexivity. Qed.

End Executor.

(** Reduces a run of a method to the driver's answers. *)
Ltac run :=
  unfold bind, try_catch, try_finally, mutate, this_, ret, throw;
  cbn [fst snd];
  repeat (rewrite ?_execute_default, ?_execute_run; cbn [fst snd]).

(** ** Guards of the destructive operations *)

(** C4. On a builder without predicate fragments, [update] and [delete]
    throw their caller error ("UPDATE requires WHERE", "DELETE requires
    WHERE") and leave the world as it was: nothing is sent to the pool or
    to a transaction connection, nothing is printed. *)
Theorem update_delete_require_where (drv : driver) (data : option obj)
    (this : DB) (w : world) :
  wheres this = [] ->
  update drv data (this, w) = (Throw (Error "UPDATE requires WHERE"), (this, w))
  /\ delete drv (this, w) = (Throw (Error "DELETE requires WHERE"), (this, w)).
Proof.
  intros Hnone. unfold update, delete, bind, this_, throw.
  cbn [fst snd]. rewrite Hnone. split; reflexivity.
Qed.

Lemma update_delete_require_where_witness :
  wheres Fixtures.ordered_users = []
  /\ update Fixtures.quiet (Some [("name", VStr "x")])
       (Fixtures.ordered_users, Fixtures.fresh_world)
     = (Throw (Error "UPDATE requires WHERE"),
        (Fixtures.ordered_users, Fixtures.fresh_world))
  /\ delete Fixtures.quiet (Fixtures.ordered_users, Fixtures.fresh_world)
     = (Throw (Error "DELETE requires WHERE"),
        (Fixtures.ordered_users, Fixtures.fresh_world)).
Proof.
  split; [reflexivity |].
  apply (update_delete_require_where Fixtures.quiet (Some [("name", VStr "x")])
           Fixtures.ordered_users Fixtures.fresh_world).
  reflexivity.
Defined.

(** ** The debug flag *)

Section Blind.

Variable drv : driver.

Lemma blind_ret {A} (a : A) : blind (ret a).
Proof. intros this w1 w2 H. repeat split; cbn; auto. Qed.

Lemma blind_throw {A} (e : error) : blind (@throw _ A e).
Proof. intros this w1 w2 H. repeat split; cbn; auto. Qed.

Lemma blind_this : blind this_.
Proof. intros this w1 w2 H. repeat split; cbn; auto. Qed.

Lemma blind_mutate (f : DB -> DB) : blind (mutate f).
Proof. intros this w1 w2 H. repeat split; cbn; auto. Qed.

Lemma blind_bind {A B} (m : M (DB * world) A) (k : A -> M (DB * world) B) :
  blind m -> (forall a, blind (k a)) -> blind (bind m k).
Proof.
  intros Hm Hk this w1 w2 H. unfold bind.
  destruct (Hm this w1 w2 H) as (Ho & Ht & Hs).
  destruct (m (this, w1)) as [o1 [t1 v1]], (m (this, w2)) as [o2 [t2 v2]].
  cbn in Ho, Ht, Hs. subst o2 t2.
  destruct o1 as [a | e]; [apply Hk; assumption | repeat split; cbn; auto].
Qed.

Lemma blind_try_catch {A} (m : M (DB * world) A)
    (h : error -> M (DB * world) A) :
  blind m -> (forall e, blind (h e)) -> blind (try_catch m h).
Proof.
  intros Hm Hh this w1 w2 H. unfold try_catch.
  destruct (Hm this w1 w2 H) as (Ho & Ht & Hs).
  destruct (m (this, w1)) as [o1 [t1 v1]], (m (this, w2)) as [o2 [t2 v2]].
  cbn in Ho, Ht, Hs. subst o2 t2.
  destruct o1 as [a | e]; [repeat split; cbn; auto | apply Hh; assumption].
Qed.

Lemma blind_try_finally {A} (m : M (DB * world) A) (fin : M (DB * world) unit) :
  blind m -> blind fin -> blind (try_finally m fin).
Proof.
  intros Hm Hf this w1 w2 H. unfold try_finally.
  destruct (Hm this w1 w2 H) as (Ho & Ht & Hs).
  destruct (m (this, w1)) as [o1 [t1 v1]], (m (this, w2)) as [o2 [t2 v2]].
  cbn in Ho, Ht, Hs. subst o2 t2.
  destruct (Hf t1 v1 v2 Hs) as (Ho' & Ht' & Hs').
  destruct (fin (t1, v1)) as [p1 [u1 x1]], (fin (t1, v2)) as [p2 [u2 x2]].
  cbn in Ho', Ht', Hs'. subst p2 u2.
  destruct p1; repeat split; cbn; auto.
Qed.

Lemma blind__execute (sql : string) (ps : option (list value)) :
  blind (_execute drv sql ps).
Proof.
  intros this w1 w2 H. destruct ps as [ps |];
    rewrite ?_execute_default, !_execute_run; unfold same_run;
    cbn [fst snd]; rewrite !sent_send, !sent_logged, H; auto.
Qed.

End Blind.

Create HintDb blind.

#[local] Hint Resolve blind_ret blind_throw blind_this blind_mutate
  blind__execute : blind.

(** Splits a method into its parts and closes each with the lemmas above. *)
Ltac blindness :=
  repeat first
    [ solve [auto with blind]
    | apply blind_bind; [| intro]
    | apply blind_try_catch; [| intro]
    | apply blind_try_finally
    | match goal with
      | |- blind (match ?x with _ => _ end) => destruct x
      | |- blind (let _ := _ in _) => cbv zeta
      end ].

Section BlindMethods.

Variable drv : driver.

Lemma blind_get : blind (get drv).
Proof. unfold get. blindness. Qed.

Lemma blind_first : blind (first drv).
Proof. unfold first. blindness. Qed.

Lemma blind_count (column : option string) : blind (count drv column).
Proof. unfold count. blindness. Qed.

Lemma blind_insert (data : option obj) : blind (insert drv data).
Proof. unfold insert. blindness. Qed.

Lemma blind_insertBulk (rows : option bulk_arg) : blind (insertBulk drv rows).
Proof. unfold insertBulk. blindness. Qed.

Lemma blind_update (data : option obj) : blind (update drv data).
Proof. unfold update. blindness. Qed.

Lemma blind_delete : blind (delete drv).
Proof. unfold delete. blindness. Qed.

Lemma blind_truncate : blind (truncate drv).
Proof. unfold truncate. blindness. Qed.

Lemma blind_paginate (page per_page : option Z) :
  blind (paginate drv page per_page).
Proof. unfold paginate. blindness. Qed.

End BlindMethods.

(** C9. Two runs of [_execute] that differ only in [DB.debug] are the same
    run: same outcome, same receiver, and in both exactly one request is
    sent, the given statement with the given parameters on the route the
    receiver selects.  The same holds for every terminal operation: the
    flag changes the console and nothing else. *)
Theorem debug_flag_only_prints (drv : driver) (this : DB) (w : world)
    (d1 d2 : bool) :
  (forall sql ps,
      same_run (_execute drv sql (Some ps) (this, set_debug d1 w))
               (_execute drv sql (Some ps) (this, set_debug d2 w))
      /\ sent (snd (snd (_execute drv sql (Some ps) (this, set_debug d1 w))))
         = sent w ++ [EvExecute (route this) sql ps]
      /\ sent (snd (snd (_execute drv sql (Some ps) (this, set_debug d2 w))))
         = sent w ++ [EvExecute (route this) sql ps])
  /\ same_run (get drv (this, set_debug d1 w)) (get drv (this, set_debug d2 w))
  /\ same_run (first drv (this, set_debug d1 w))
              (first drv (this, set_debug d2 w))
  /\ (forall column,
        same_run (count drv column (this, set_debug d1 w))
                 (count drv column (this, set_debug d2 w)))
  /\ (forall data,
        same_run (insert drv data (this, set_debug d1 w))
                 (insert drv data (this, set_debug d2 w)))
  /\ (forall rows,
        same_run (insertBulk drv rows (this, set_debug d1 w))
                 (insertBulk drv rows (this, set_debug d2 w)))
  /\ (forall data,
        same_run (update drv data (this, set_debug d1 w))
                 (update drv data (this, set_debug d2 w)))
  /\ same_run (delete drv (this, set_debug d1 w))
              (delete drv (this, set_debug d2 w))
  /\ same_run (truncate drv (this, set_debug d1 w))
              (truncate drv (this, set_debug d2 w))
  /\ (forall page per_page,
        same_run (paginate drv page per_page (this, set_debug d1 w))
                 (paginate drv page per_page (this, set_debug d2 w))).
Proof.
  assert (Hs : sent (set_debug d1 w) = sent (set_debug d2 w)) by reflexivity.
  split.
  { intros sql ps. split; [apply blind__execute; exact Hs |].
    rewrite !_execute_run. cbn [fst snd].
    rewrite !sent_send, !sent_logged. split; reflexivity. }
  repeat split; intros;
    first [ apply blind_get | apply blind_first | apply blind_count
          | apply blind_insert | apply blind_insertBulk | apply blind_update
          | apply blind_delete | apply blind_truncate | apply blind_paginate ];
    exact Hs.
Qed.

(** ** Raw SQL *)

(** C10. When the driver answers a statement with the pair [(rows, fields)],
    the top-level [DB.sql] returns [rows] alone while [trx.sql], inside a
    transaction, returns the whole pair. *)
Theorem raw_sql_shapes (drv : driver) (query : string) (ps : list value)
    (c : conn) (w : world) (rows : payload) (fields : option (list string)) :
  execute drv (sent w) OnPool query ps = inr (rows, fields) ->
  execute drv (sent w) (OnConn c) query ps = inr (rows, fields) ->
  sql drv query (Some ps) w = (Ret rows, send (EvExecute OnPool query ps) w)
  /\ trx_sql (make_trx drv c) query (Some ps) w
     = (Ret (rows, fields), send (EvExecute (OnConn c) query ps) w).
Proof.
  intros Hpool Hconn.
  unfold sql, make_trx, trx_sql, bind, pool_execute, conn_execute,
    driver_execute, ret.
  rewrite Hpool, Hconn. split; reflexivity.
Qed.

Lemma raw_sql_shapes_witness :
  sql Fixtures.twenty_five "SELECT COUNT(*) as total FROM users" (Some [])
      Fixtures.fresh_world
  = (Ret (Rows [[("total", VNum 25)]]),
     send (EvExecute OnPool "SELECT COUNT(*) as total FROM users" [])
          Fixtures.fresh_world)
  /\ trx_sql (make_trx Fixtures.twenty_five 7%nat)
       "SELECT COUNT(*) as total FROM users" (Some []) Fixtures.fresh_world
     = (Ret (Rows [[("total", VNum 25)]], Some ["total"]),
        send (EvExecute (OnConn 7%nat) "SELECT COUNT(*) as total FROM users" [])
             Fixtures.fresh_world).
Proof.
  apply (raw_sql_shapes Fixtures.twenty_five
           "SELECT COUNT(*) as total FROM users" [] 7%nat Fixtures.fresh_world
           (Rows [[("total", VNum 25)]]) (Some ["total"])); reflexivity.
Defined.

(** ** Transactions *)

Section Transaction.

Variable drv : driver.
Context {A : Type}.
Variable callback : trx -> M world A.

(** A unit of work that completes is followed by commit, then release. *)
Lemma transaction_commits (w w' : world) (c : conn) (a : A) :
  getConnection drv (sent w) = inr c ->
  beginTransaction drv (sent w ++ [EvGetConnection]) c = None ->
  callback (make_trx drv c) (entered c w) = (Ret a, w') ->
  commit drv (sent w') c = None ->
  transaction drv callback w
  = (Ret a, send (EvRelease c) (send (EvCommit c) w')).
Proof.
  intros Hc Hb Hcb Hk.
  unfold transaction, bind, try_finally, pool_getConnection,
    conn_beginTransaction, conn_commit, conn_release, ret.
  rewrite Hc. cbn [sent send]. rewrite Hb.
  fold (entered c w). rewrite Hcb, Hk. reflexivity.
Qed.

(** A unit of work that throws is followed by release alone: the error
    leaves unchanged, and neither commit nor rollback is requested. *)
Lemma transaction_raises (w w' : world) (c : conn) (e : error) :
  getConnection drv (sent w) = inr c ->
  beginTransaction drv (sent w ++ [EvGetConnection]) c = None ->
  callback (make_trx drv c) (entered c w) = (Throw e, w') ->
  transaction drv callback w = (Throw e, send (EvRelease c) w').
Proof.
  intros Hc Hb Hcb.
  unfold transaction, bind, try_finally, pool_getConnection,
    conn_beginTransaction, conn_commit, conn_release, ret.
  rewrite Hc. cbn [sent send]. rewrite Hb.
  fold (entered c w). rewrite Hcb. reflexivity.
Qed.

End Transaction.

(** C1 (the code departs from it). The unit of work of the README, failing
    after its two inserts: the error reaches the caller unchanged and no
    commit is requested, but no rollback is requested either; the
    connection goes back to the pool with the transaction still open. *)
Theorem transaction_raise_without_rollback :
  let run := transaction Fixtures.writer (Fixtures.readme_work Fixtures.writer)
               Fixtures.fresh_world in
  fst run = Throw (Error "Fail Transaction")
  /\ sent (snd run)
     = [ EvGetConnection; EvBeginTransaction 7%nat;
         EvExecute (OnConn 7%nat)
           (insert_sql ["name"; "email"; "status"; "role"] (DB_table "users"))
           [VStr "Transaction User"; VStr "trx@test.com"; VStr "active";
            VStr "user"];
         EvExecute (OnConn 7%nat)
           (insert_sql ["user_id"; "bio"] (DB_table "profiles"))
           [VNum 1; VStr "Created inside transaction"];
         EvRelease 7%nat ]
  /\ existsb is_commit (sent (snd run)) = false
  /\ existsb is_rollback (sent (snd run)) = false.
Proof. vm_compute. repeat split. Qed.

(** ** Runs of the terminal operations *)

Section Runs.

Variable drv : driver.

Lemma get_run (this : DB) (w : world) :
  get drv (this, w) =
  (match execute drv (sent w) (route this) (buildSelect this) (params this) with
   | inl e => Throw (Error ("GET failed: " ++ message e))
   | inr r => Ret (fst r)
   end,
   (reset this,
    send (EvExecute (route this) (buildSelect this) (params this))
         (logged (buildSelect this) (params this) w))).
Proof.
  unfold get. run. destruct (execute drv _ _ _ _); reflexivity.
Qed.

Lemma first_run (this : DB) (w : world) :
  first drv (this, w) =
  (let this' := limit 1 None this in
   match execute drv (sent w) (route this) (buildSelect this') (params this) with
   | inl e => Throw (Error ("GET failed: " ++ message e))
   | inr r => Ret (first_row (fst r))
   end,
   (reset this,
    send (EvExecute (route this) (buildSelect (limit 1 None this)) (params this))
         (logged (buildSelect (limit 1 None this)) (params this) w))).
Proof.
  unfold first, bind, mutate. cbn [fst snd]. rewrite get_run.
  cbn [route limit _trx params]. unfold ret.
  destruct (execute drv _ _ _ _); reflexivity.
Qed.

Lemma count_run (column : option string) (this : DB) (w : world) :
  let sql := count_sql match column with Some c => c | None => "*" end this in
  count drv column (this, w) =
  (match execute drv (sent w) (route this) sql (params this) with
   | inl e => Throw (Error ("COUNT failed: " ++ message e))
   | inr r => Ret (or_else (total_of (fst r)) (VNum 0))
   end,
   (reset this,
    send (EvExecute (route this) sql (params this)) (logged sql (params this) w))).
Proof.
  unfold count. run. destruct (execute drv _ _ _ _); reflexivity.
Qed.

Lemma insert_run (data : obj) (this : DB) (w : world) :
  first_undefined data = None ->
  let sql := insert_sql (keys data) this in
  insert drv (Some data) (this, w) =
  (match execute drv (sent w) (route this) sql (values data) with
   | inl e =>
       Throw (Error ("INSERT[" ++ table this ++ "] failed: " ++ message e))
   | inr r => Ret (member "insertId" (fst r))
   end,
   (this, send (EvExecute (route this) sql (values data)) (logged sql (values data) w))).
Proof.
  intros Hdef. unfold insert. rewrite Hdef. run.
  destruct (execute drv _ _ _ _); reflexivity.
Qed.

Lemma insert_rejects (data : obj) (key : string) (this : DB) (w : world) :
  first_undefined data = Some key ->
  insert drv (Some data) (this, w) =
  (Throw (Error ("INSERT[" ++ table this ++ "] failed: "
                   ++ "Undefined value for column: " ++ key ++ "-undefined")),
   (this, w)).
Proof. intros Hk. unfold insert. rewrite Hk. run. reflexivity. Qed.

Lemma update_run (data : obj) (this : DB) (w : world) :
  wheres this <> [] ->
  let sql := update_sql data this in
  let ps := values data ++ params this in
  update drv (Some data) (this, w) =
  (match execute drv (sent w) (route this) sql ps with
   | inl e => Throw e
   | inr r => Ret (member "affectedRows" (fst r))
   end,
   (reset this, send (EvExecute (route this) sql ps) (logged sql ps w))).
Proof.
  intros Hw. unfold update, bind, this_. cbn [fst snd].
  destruct (wheres this) as [| f fs] eqn:E; [contradiction |].
  run. destruct (execute drv _ _ _ _); reflexivity.
Qed.

Lemma delete_run (this : DB) (w : world) :
  wheres this <> [] ->
  let sql := delete_sql this in
  delete drv (this, w) =
  (match execute drv (sent w) (route this) sql (params this) with
   | inl e => Throw e
   | inr r => Ret (member "affectedRows" (fst r))
   end,
   (reset this,
    send (EvExecute (route this) sql (params this)) (logged sql (params this) w))).
Proof.
  intros Hw. unfold delete, bind, this_. cbn [fst snd].
  destruct (wheres this) as [| f fs] eqn:E; [contradiction |].
  run. destruct (execute drv _ _ _ _); reflexivity.
Qed.

Lemma truncate_run (this : DB) (w : world) :
  let sql := ("TRUNCATE TABLE " ++ table this)%string in
  truncate drv (this, w) =
  (answer (execute drv (sent w) (route this) sql []),
   (this, send (EvExecute (route this) sql []) (logged sql [] w))).
Proof. unfold truncate. run. reflexivity. Qed.

End Runs.

(** ** Pagination *)

Section Pagination.

Variable drv : driver.

(** [paginate] whose COUNT statement fails: the driver's error leaves as it
    is and the receiver keeps its clauses. *)
Lemma paginate_count_fails (page per_page : Z) (this : DB) (w : world)
    (e : error) :
  let csql := paginate_count_sql this in
  execute drv (sent w) (route this) csql (params this) = inl e ->
  paginate drv (Some page) (Some per_page) (this, w) =
  (Throw e,
   (this, send (EvExecute (route this) csql (params this))
               (logged csql (params this) w))).
Proof.
  intros csql He. unfold paginate. run. fold csql. rewrite He. reflexivity.
Qed.

(** [paginate] whose COUNT statement succeeds: no test of [page] or
    [perPage] stands between the arguments and the two statements. *)
Lemma paginate_run (page per_page : Z) (this : DB) (w : world) (r : reply) :
  let csql := paginate_count_sql this in
  let this' := limit per_page (Some ((page - 1) * per_page)) this in
  let w1 := send (EvExecute (route this) csql (params this))
                 (logged csql (params this) w) in
  let tot := or_else (total_of (fst r)) (VNum 0) in
  execute drv (sent w) (route this) csql (params this) = inr r ->
  paginate drv (Some page) (Some per_page) (this, w) =
  (match execute drv (sent w1) (route this) (buildSelect this') (params this)
   with
   | inl e => Throw (Error ("GET failed: " ++ message e))
   | inr d =>
       Ret {| data := fst d;
              meta := {| total := tot; perPage := per_page;
                         currentPage := page;
                         lastPage := ceil_div tot per_page |} |}
   end,
   (reset this,
    send (EvExecute (route this) (buildSelect this') (params this))
         (logged (buildSelect this') (params this) w1))).
Proof.
  intros csql this' w1 tot Hr. unfold paginate.
  unfold bind at 1. unfold this_ at 1. cbn [fst snd].
  unfold bind at 1. rewrite _execute_run. fold csql. rewrite Hr.
  cbn [answer]. unfold bind at 1. unfold mutate at 1. cbn [fst snd].
  fold this'. unfold bind at 1. rewrite get_run. fold w1.
  change (route this') with (route this).
  change (params this') with (params this).
  change (reset this') with (reset this).
  destruct (execute drv (sent w1) _ _ _); reflexivity.
Qed.

End Pagination.

(** [Math.ceil(t / n)] on a count [t >= 0] and a size [n >= 1] is the least
    number of pages of [n] rows that hold [t] rows. *)
Lemma ceil_div_pages (t n : Z) :
  0 <= t -> 1 <= n ->
  exists pages,
    ceil_div (VNum t) n = JFin pages
    /\ (pages - 1) * n < t <= pages * n.
Proof.
  intros Ht Hn. exists (- (- t / n)). unfold ceil_div, to_number.
  destruct (n =? 0) eqn:E; [apply Z.eqb_eq in E; lia |].
  split; [reflexivity |].
  pose proof (Z.div_mod (- t) n ltac:(lia)) as Hdm.
  pose proof (Z.mod_pos_bound (- t) n ltac:(lia)) as Hb.
  nia.
Qed.

(** Appending texts is associative. *)
Lemma text_assoc (a b c : string) : ((a ++ b) ++ c = a ++ (b ++ c))%string.
Proof. induction a as [| ch a IH]; cbn; [| rewrite IH]; reflexivity. Qed.

(** A negative integer is rendered with a minus sign before its digits. *)
Lemma show_negative (n : Z) : n < 0 -> show n = ("-" ++ show (- n))%string.
Proof. destruct n as [| p | p]; intros H; try lia. reflexivity. Qed.




(** C5 (counterexample). [paginate(0, 10)] is not rejected:
    both statements go to the pool, the second with a negative offset, and
    a page comes back. *)
Lemma paginate_page_zero_runs :
  let run := paginate Fixtures.quiet (Some 0) (Some 10)
               (Fixtures.active_users, Fixtures.fresh_world) in
  fst run = Ret {| data := Rows [];
                   meta := {| total := VNum 0; perPage := 10; currentPage := 0;
                              lastPage := JFin 0 |} |}
  /\ sent (snd (snd run))
     = [ EvExecute OnPool (paginate_count_sql Fixtures.active_users)
           [VStr "active"];
         EvExecute OnPool
           (buildSelect (limit 10 (Some (-10)) Fixtures.active_users))
           [VStr "active"] ]
  /\ limitVal (limit 10 (Some (-10)) Fixtures.active_users) = "LIMIT -10, 10".
Proof. vm_compute. repeat split. Qed.

(** C5 (amended). [paginate] tests neither argument.  With [page <= 0] or
    [perPage <= 0] (safe integers) the LIMIT it compiles has a negative
    offset or a row count that is not positive, and it is sent all the same:
    the COUNT statement always goes out first; when the driver fails it,
    the driver's error leaves as it is; when the driver answers it, the
    SELECT written out below goes out next, ending with
    [LIMIT (page - 1) * perPage, perPage] rendered from the numbers as they
    are (a negative offset with its minus sign), the receiver is reset, and
    the call ends as [get] ends: with the page when the driver answers the
    SELECT, with "GET failed: ..." around the driver's message when it
    refuses it. *)
Theorem paginate_out_of_range_runs (drv : driver) (page per_page : Z)
    (this : DB) (w : world) :
  let offset := (page - 1) * per_page in
  let joins_text := array_join " " (joins this) in
  let where_text := match wheres this with
                    | [] => ""
                    | _ => ("WHERE " ++ array_join " AND " (wheres this))%string
                    end in
  let count_text :=
    (nl ++ "      SELECT COUNT(*) as total" ++
     nl ++ "      FROM " ++ table this ++
     nl ++ "      " ++ joins_text ++
     nl ++ "      " ++ where_text ++
     nl ++ "    ")%string in
  let data_text :=
    (nl ++ "      SELECT " ++ selectCols this ++
     nl ++ "      FROM " ++ table this ++
     nl ++ "      " ++ joins_text ++
     nl ++ "      " ++ where_text ++
     nl ++ "      " ++ order this ++
     nl ++ "      LIMIT " ++ show offset ++ ", " ++ show per_page ++
     nl ++ "    ")%string in
  let count_request := EvExecute (route this) count_text (params this) in
  let data_request := EvExecute (route this) data_text (params this) in
  let run := paginate drv (Some page) (Some per_page) (this, w) in
  page <= 0 \/ per_page <= 0 ->
  safe_integer page -> safe_integer per_page -> safe_integer offset ->
  (offset < 0 \/ per_page <= 0)
  /\ (offset < 0 -> show offset = ("-" ++ show (- offset))%string)
  /\ (exists rest, sent (snd (snd run)) = sent w ++ count_request :: rest)
  /\ (forall e,
        execute drv (sent w) (route this) count_text (params this) = inl e ->
        fst run = Throw e
        /\ sent (snd (snd run)) = sent w ++ [count_request])
  /\ (forall c,
        execute drv (sent w) (route this) count_text (params this) = inr c ->
        sent (snd (snd run)) = sent w ++ [count_request; data_request]
        /\ fst (snd run) = reset this
        /\ fst run
           = match execute drv (sent w ++ [count_request]) (route this)
                     data_text (params this) with
             | inl e => Throw (Error ("GET failed: " ++ message e))
             | inr d =>
                 Ret {| data := fst d;
                        meta := {| total := or_else (total_of (fst c)) (VNum 0);
                                   perPage := per_page;
                                   currentPage := page;
                                   lastPage :=
                                     ceil_div
                                       (or_else (total_of (fst c)) (VNum 0))
                                       per_page |} |}
             end).
Proof.
  intros offset joins_text where_text count_text data_text count_request
    data_request run Hrange _ _ _.
  assert (Hcount : paginate_count_sql this = count_text) by reflexivity.
  assert (Hdata : buildSelect (limit per_page (Some offset) this) = data_text).
  { unfold buildSelect, where_clause, data_text.
    cbn [limit table selectCols joins wheres order limitVal].
    rewrite !text_assoc. reflexivity. }
  assert (Hfail : forall e,
             execute drv (sent w) (route this) count_text (params this) = inl e ->
             fst run = Throw e
             /\ sent (snd (snd run)) = sent w ++ [count_request]).
  { intros e He. unfold run.
    rewrite (paginate_count_fails drv page per_page this w e)
      by (rewrite Hcount; exact He).
    cbn [fst snd]. rewrite Hcount, sent_send, sent_logged. split; reflexivity. }
  assert (Hok : forall c,
             execute drv (sent w) (route this) count_text (params this) = inr c ->
             sent (snd (snd run)) = sent w ++ [count_request; data_request]
             /\ fst (snd run) = reset this
             /\ fst run
                = match execute drv (sent w ++ [count_request]) (route this)
                          data_text (params this) with
                  | inl e => Throw (Error ("GET failed: " ++ message e))
                  | inr d =>
                      Ret {| data := fst d;
                             meta := {| total :=
                                          or_else (total_of (fst c)) (VNum 0);
                                        perPage := per_page;
                                        currentPage := page;
                                        lastPage :=
                                          ceil_div
                                            (or_else (total_of (fst c)) (VNum 0))
                                            per_page |} |}
                  end).
  { intros c Hc. unfold run.
    rewrite (paginate_run drv page per_page this w c)
      by (rewrite Hcount; exact Hc).
    cbn [fst snd]. fold offset. rewrite Hdata, Hcount.
    rewrite !sent_send, !sent_logged. fold count_request. fold data_request.
    rewrite ?sent_send, ?sent_logged, <- app_assoc. repeat split. }
  split; [nia |].
  split; [apply show_negative |].
  split; [| split; [exact Hfail | exact Hok]].
  destruct (execute drv (sent w) (route this) count_text (params this))
    as [e | c] eqn:E.
  - exists []. apply (Hfail e). reflexivity.
  - exists [data_request]. apply (Hok c). reflexivity.
Qed.

Lemma paginate_out_of_range_runs_witness :
  let run := paginate Fixtures.strict (Some 0) (Some 10)
               (Fixtures.active_users, Fixtures.fresh_world) in
  fst run
  = Throw (Error "GET failed: You have an error in your SQL syntax")
  /\ sent (snd (snd run))
     = [ EvExecute OnPool
           (nl ++ "      SELECT COUNT(*) as total" ++
            nl ++ "      FROM users" ++
            nl ++ "      " ++
            nl ++ "      WHERE status = ?" ++
            nl ++ "    ")%string
           [VStr "active"];
         EvExecute OnPool
           (nl ++ "      SELECT *" ++
            nl ++ "      FROM users" ++
            nl ++ "      " ++
            nl ++ "      WHERE status = ?" ++
            nl ++ "      " ++
            nl ++ "      LIMIT -10, 10" ++
            nl ++ "    ")%string
           [VStr "active"] ]
  /\ show ((0 - 1) * 10) = "-10".
Proof.
  intros run.
  destruct (paginate_out_of_range_runs Fixtures.strict 0 10
              Fixtures.active_users Fixtures.fresh_world)
    as (_ & Hminus & _ & _ & Hok);
    [ left; lia | unfold safe_integer; lia | unfold safe_integer; lia
    | unfold safe_integer; lia | ].
  destruct (Hok (Rows [[("total", VNum 25)]], Some ["total"]) eq_refl)
    as (Hsent & _ & Hout).
  split; [exact Hout |]. split; [exact Hsent |].
  exact (Hminus ltac:(lia)).
Defined.

(** ** State reset *)

Section Reset.

Variable drv : driver.

Lemma get_resets (this : DB) (w : world) :
  fst (snd (get drv (this, w))) = reset this.
Proof. rewrite get_run. reflexivity. Qed.

Lemma insert_keeps (data : option obj) (this : DB) (w : world) :
  fst (snd (insert drv data (this, w))) = this.
Proof.
  assert (H : forall d, fst (snd (insert drv (Some d) (this, w))) = this).
  { intros d. destruct (first_undefined d) as [key |] eqn:E.
    - rewrite (insert_rejects drv d key this w E). reflexivity.
    - rewrite (insert_run drv d this w E). reflexivity. }
  destruct data as [d |]; [apply H | apply (H [])].
Qed.

Lemma update_resets (data : option obj) (this : DB) (w : world) :
  wheres this <> [] -> fst (snd (update drv data (this, w))) = reset this.
Proof.
  intros Hw.
  assert (H : forall d, fst (snd (update drv (Some d) (this, w))) = reset this).
  { intros d. rewrite (update_run drv d this w Hw). reflexivity. }
  destruct data as [d |]; [apply H | apply (H [])].
Qed.

Lemma delete_resets (this : DB) (w : world) :
  wheres this <> [] -> fst (snd (delete drv (this, w))) = reset this.
Proof. intros Hw. rewrite (delete_run drv this w Hw). reflexivity. Qed.

Lemma paginate_resets (page per_page : option Z) (this : DB) (w : world)
    (r : page_result) (s : DB * world) :
  paginate drv page per_page (this, w) = (Ret r, s) -> fst s = reset this.
Proof.
  assert (H : forall p n, paginate drv (Some p) (Some n) (this, w) = (Ret r, s)
                          -> fst s = reset this).
  { intros p n Hrun.
    destruct (execute drv (sent w) (route this) (paginate_count_sql this)
                (params this)) as [e | c] eqn:E.
    - rewrite (paginate_count_fails drv p n this w e E) in Hrun. discriminate.
    - rewrite (paginate_run drv p n this w c E) in Hrun.
      injection Hrun as _ Hs. subst s. reflexivity. }
  destruct page as [p |], per_page as [n |]; intros Hrun.
  - exact (H p n Hrun).
  - exact (H p 10 Hrun).
  - exact (H 1 n Hrun).
  - exact (H 1 10 Hrun).
Qed.

Lemma where_not_empty (column operator : string) (v : value) (this : DB) :
  wheres (where_ column operator v this) <> [].
Proof.
  cbn [wheres where_]. destruct (wheres this); discriminate.
Qed.

End Reset.

(** C3 (counterexample). [truncate] and [insert] leave the
    accumulated clauses where they are. *)
Lemma truncate_and_insert_keep_clauses :
  let after_truncate :=
    fst (snd (truncate Fixtures.quiet
                (Fixtures.active_users, Fixtures.fresh_world))) in
  let after_insert :=
    fst (snd (insert Fixtures.writer (Some [("name", VStr "x")])
                (Fixtures.active_users, Fixtures.fresh_world))) in
  wheres after_truncate = ["status = ?"]
  /\ after_truncate <> reset Fixtures.active_users
  /\ wheres after_insert = ["status = ?"]
  /\ after_insert <> reset Fixtures.active_users.
Proof. vm_compute. repeat split; discriminate. Qed.

(** C3 (amended). The operations that compile the accumulated clauses leave
    the receiver in the empty state: [get], [first] and [count] on every
    exit, [update] and [delete] on every exit once a predicate is present,
    [paginate] whenever it returns.  [insert] and [truncate], which compile
    from the table alone, leave the receiver as it is.  After a [get], a
    second [get] sends the SELECT of the empty state with no parameter:
    all columns, no join, no WHERE, no ORDER BY, no LIMIT. *)
Theorem terminal_operations_reset (drv : driver) (this : DB) (w : world) :
  fst (snd (get drv (this, w))) = reset this
  /\ fst (snd (first drv (this, w))) = reset this
  /\ (forall column, fst (snd (count drv column (this, w))) = reset this)
  /\ (forall data column operator v,
        fst (snd (update drv data (where_ column operator v this, w)))
        = reset this)
  /\ (forall column operator v,
        fst (snd (delete drv (where_ column operator v this, w))) = reset this)
  /\ (forall page per_page r s,
        paginate drv page per_page (this, w) = (Ret r, s) ->
        fst s = reset this)
  /\ (forall data, fst (snd (insert drv data (this, w))) = this)
  /\ fst (snd (truncate drv (this, w))) = this
  /\ (let once := snd (get drv (this, w)) in
      sent (snd (snd (get drv once)))
      = sent (snd once) ++ [EvExecute (route this) (buildSelect (reset this)) []]
      /\ selectCols (reset this) = "*"
      /\ joins (reset this) = []
      /\ where_clause (reset this) = ""
      /\ order (reset this) = ""
      /\ limitVal (reset this) = "").
Proof.
  split; [apply get_resets |].
  split; [rewrite first_run; reflexivity |].
  split; [intros column; rewrite count_run; reflexivity |].
  split.
  { intros data column operator v.
    rewrite update_resets by apply where_not_empty. reflexivity. }
  split.
  { intros column operator v.
    rewrite delete_resets by apply where_not_empty. reflexivity. }
  split; [intros page per_page r s; apply paginate_resets |].
  split; [intros data; apply insert_keeps |].
  split; [rewrite truncate_run; reflexivity |].
  cbv zeta. rewrite (get_run drv this w). cbn [fst snd].
  rewrite get_run. cbn [fst snd]. rewrite !sent_send, !sent_logged.
  repeat split; rewrite !sent_send, !sent_logged; reflexivity.
Qed.

Lemma terminal_operations_reset_witness :
  fst (snd (paginate Fixtures.twenty_five (Some 2) (Some 10)
              (Fixtures.active_users, Fixtures.fresh_world)))
  = reset Fixtures.active_users.
Proof.
  destruct (terminal_operations_reset Fixtures.twenty_five
              Fixtures.active_users Fixtures.fresh_world)
    as (_ & _ & _ & _ & _ & Hpaginate & _).
  destruct (paginate Fixtures.twenty_five (Some 2) (Some 10)
              (Fixtures.active_users, Fixtures.fresh_world)) as [o s] eqn:E.
  vm_compute in E. injection E as Ho Hs. subst o s.
  refine (Hpaginate (Some 2) (Some 10) _ _ _). vm_compute. reflexivity.
Defined.

(** C7 (the code departs from it). [update] on a builder without predicate
    leaves through the guard placed before the [try ... finally]: the
    selection and ordering accumulated so far stay on the instance. *)
Theorem update_without_where_keeps_state :
  let run := update Fixtures.quiet (Some [("name", VStr "x")])
               (Fixtures.ordered_users, Fixtures.fresh_world) in
  fst run = Throw (Error "UPDATE requires WHERE")
  /\ fst (snd run) = Fixtures.ordered_users
  /\ selectCols (fst (snd run)) = "id"
  /\ order (fst (snd run)) = "ORDER BY id ASC"
  /\ fst (snd run) <> reset Fixtures.ordered_users.
Proof. vm_compute. repeat split. discriminate. Qed.

(** ** Placeholders and bound parameters *)

Lemma text_app_assoc (a b c : string) :
  ((a ++ b) ++ c = a ++ (b ++ c))%string.
Proof. induction a as [| ch a IH]; cbn; [| rewrite IH]; reflexivity. Qed.

Lemma placeholders_app (a b : string) :
  placeholders (a ++ b) = (placeholders a + placeholders b)%nat.
Proof.
  induction a as [| ch a IH]; cbn; [reflexivity |].
  rewrite IH. destruct (Ascii.eqb ch "?"); reflexivity.
Qed.

Lemma text_app_nil (a : string) : (a ++ "")%string = a.
Proof. induction a as [| ch a IH]; cbn; [| rewrite IH]; reflexivity. Qed.

Lemma array_join_cons (sep x : string) (xs : list string) :
  array_join sep (x :: xs) = (x ++ join_tail sep xs)%string.
Proof.
  destruct xs as [| y ys]; cbn; [rewrite text_app_nil |]; reflexivity.
Qed.

Lemma array_join_split (sep y : string) (xs zs : list string) :
  array_join sep (xs ++ y :: zs)
  = (join_head sep xs ++ y ++ join_tail sep zs)%string.
Proof.
  induction xs as [| x xs IH].
  - cbn [app join_head]. apply array_join_cons.
  - change ((x :: xs) ++ y :: zs) with (x :: (xs ++ y :: zs)).
    assert (Hcons : array_join sep (x :: (xs ++ y :: zs))
                    = (x ++ sep ++ array_join sep (xs ++ y :: zs))%string).
    { destruct (xs ++ y :: zs) as [| h t] eqn:E;
        [destruct xs; discriminate | reflexivity]. }
    rewrite Hcons, IH.
    destruct xs as [| x' xs'].
    + cbn [join_head array_join String.concat].
      rewrite !text_app_assoc. reflexivity.
    + change (join_head sep (x :: x' :: xs'))
        with ((x ++ sep ++ array_join sep (x' :: xs')) ++ sep)%string.
      change (join_head sep (x' :: xs'))
        with (array_join sep (x' :: xs') ++ sep)%string.
      rewrite !text_app_assoc. reflexivity.
Qed.

(** What a chain of clause calls adds to the predicate fragments and to the
    bound parameters of the builder it starts from. *)
Lemma whereEqual_adds (data : obj) (this : DB) :
  wheres (whereEqual (Some data) this)
  = wheres this ++ map fragment (equalities data)
  /\ params (whereEqual (Some data) this)
     = params this ++ map pred_value (equalities data).
Proof.
  unfold whereEqual. revert this.
  induction data as [| [k v] data IH]; intros this; cbn [fold_left fst snd].
  - cbn. rewrite !app_nil_r. split; reflexivity.
  - destruct (IH (where_ k "=" v this)) as [Hw Hp]. rewrite Hw, Hp.
    cbn. rewrite <- !app_assoc. split; reflexivity.
Qed.

Lemma call_adds (c : clause) (this : DB) :
  wheres (call c this) = wheres this ++ map fragment (pushed c)
  /\ params (call c this) = params this ++ map pred_value (pushed c).
Proof.
  destruct c as [column operator v | [data |] | | | | | |];
    try (cbn; rewrite ?app_nil_r; split; reflexivity).
  apply whereEqual_adds.
Qed.

Lemma chain_adds (cs : list clause) (this : DB) :
  wheres (chain cs this) = wheres this ++ map fragment (predicates cs)
  /\ params (chain cs this) = params this ++ map pred_value (predicates cs).
Proof.
  unfold chain, predicates. revert this.
  induction cs as [| c cs IH]; intros this; cbn [fold_left flat_map].
  - cbn. rewrite !app_nil_r. split; reflexivity.
  - destruct (IH (call c this)) as [Hw Hp].
    destruct (call_adds c this) as [Hw' Hp'].
    rewrite Hw, Hp, Hw', Hp', !map_app, <- !app_assoc. split; reflexivity.
Qed.

Lemma placeholders_fragment (p : predicate) :
  plain p = true -> placeholders (fragment p) = 1%nat.
Proof.
  unfold plain, fragment. intros H.
  apply andb_true_iff in H. destruct H as [Hc Ho].
  apply Nat.eqb_eq in Hc, Ho.
  rewrite !placeholders_app, Hc, Ho. reflexivity.
Qed.

Lemma placeholders_join (ps : list predicate) :
  forallb plain ps = true ->
  placeholders (array_join " AND " (map fragment ps)) = length ps.
Proof.
  induction ps as [| p ps IH]; intros H; [reflexivity |].
  cbn [forallb] in H. apply andb_true_iff in H. destruct H as [Hp Hps].
  cbn [map]. rewrite array_join_cons, placeholders_app,
    (placeholders_fragment p Hp).
  cbn [length]. f_equal. specialize (IH Hps).
  destruct ps as [| q qs]; [reflexivity |].
  unfold join_tail. cbn [map]. cbn [map] in IH.
  rewrite placeholders_app, IH. reflexivity.
Qed.


(** C2 (counterexample). The operator text is copied into
    the fragment as it is: [where("age", "BETWEEN ? AND", 5)] is one clause
    call, binds one parameter and compiles to a WHERE clause with two
    placeholders. *)
Lemma operator_brings_placeholder :
  Fixtures.between
  = chain [Where "age" "BETWEEN ? AND" (VNum 5)] (DB_table "users")
  /\ where_clause Fixtures.between = "WHERE age BETWEEN ? AND ?"
  /\ length (wheres Fixtures.between) = 1%nat
  /\ length (params Fixtures.between) = 1%nat
  /\ placeholders (where_clause Fixtures.between) = 2%nat
  /\ placeholders (where_clause Fixtures.between)
     <> length (params Fixtures.between).
Proof. vm_compute. repeat split. discriminate. Qed.

(** C2 (amended). After any chain of clause calls on a fresh builder there
    are as many predicate fragments as bound parameters.  When no column or
    operator text given to [where] / [whereEqual] contains a [?], the WHERE
    clause of the compiled SELECT has exactly that many placeholders, and
    they come in the order of the parameters: the predicate at position [i]
    of the calls is the fragment at position [i], its closing [?] is
    preceded by exactly [i] placeholders, and its value is the parameter at
    position [i]. *)
Theorem placeholders_follow_parameters (t : string) (cs : list clause) :
  let b := chain cs (DB_table t) in
  length (wheres b) = length (params b)
  /\ (forallb plain (predicates cs) = true ->
      placeholders (where_clause b) = length (params b)
      /\ forall before p after,
          predicates cs = before ++ p :: after ->
          exists head tail,
            where_clause b = (head ++ fragment p ++ tail)%string
            /\ placeholders head = length before
            /\ placeholders (fragment p) = 1%nat
            /\ nth_error (wheres b) (length before) = Some (fragment p)
            /\ nth_error (params b) (length before) = Some (pred_value p)).
Proof.
  intros b. destruct (chain_adds cs (DB_table t)) as [Hw Hp].
  fold b in Hw, Hp. cbn [app DB_table new_DB reset wheres params] in Hw, Hp.
  split; [rewrite Hw, Hp, !length_map; reflexivity |].
  intros Hplain. split.
  - unfold where_clause. rewrite Hw, Hp, length_map.
    destruct (predicates cs) as [| p ps] eqn:E; [reflexivity |].
    rewrite <- E in *. destruct (map fragment (predicates cs)) eqn:M;
      [rewrite E in M; discriminate | rewrite <- M].
    rewrite placeholders_app, placeholders_join by assumption. reflexivity.
  - intros before p after Hcut.
    rewrite Hcut in Hplain. rewrite forallb_app in Hplain.
    apply andb_true_iff in Hplain. destruct Hplain as [Hbefore Hrest].
    cbn [forallb] in Hrest. apply andb_true_iff in Hrest.
    destruct Hrest as [Hpp _].
    exists ("WHERE " ++ join_head " AND " (map fragment before))%string,
           (join_tail " AND " (map fragment after)).
    repeat split.
    + unfold where_clause. rewrite Hw, Hcut, map_app. cbn [map].
      destruct (map fragment before ++ fragment p :: map fragment after)
        as [| h l] eqn:M; [destruct (map fragment before); discriminate |].
      rewrite <- M, array_join_split, !text_app_assoc. reflexivity.
    + rewrite placeholders_app. cbn [placeholders Ascii.eqb Bool.eqb plus].
      destruct before as [| q qs]; [reflexivity |].
      change (join_head " AND " (map fragment (q :: qs)))
        with (array_join " AND " (map fragment (q :: qs)) ++ " AND ")%string.
      rewrite placeholders_app, placeholders_join by assumption.
      cbn. f_equal. apply Nat.add_0_r.
    + apply placeholders_fragment. assumption.
    + rewrite Hw, Hcut, map_app. cbn [map].
      rewrite nth_error_app2 by (rewrite length_map; apply Nat.le_refl).
      rewrite length_map, Nat.sub_diag. reflexivity.
    + rewrite Hp, Hcut, map_app. cbn [map].
      rewrite nth_error_app2 by (rewrite length_map; apply Nat.le_refl).
      rewrite length_map, Nat.sub_diag. reflexivity.
Qed.

Lemma placeholders_follow_parameters_witness :
  let b := chain [ Where "status" "=" (VStr "active");
                   WhereEqual (Some [("role", VStr "admin"); ("age", VNum 30)]);
                   OrderBy "id" None; Limit 5 None ] (DB_table "users") in
  placeholders (where_clause b) = 3%nat
  /\ exists head tail,
       where_clause b = (head ++ "role = ?" ++ tail)%string
       /\ placeholders head = 1%nat
       /\ nth_error (params b) 1 = Some (VStr "admin").
Proof.
  intros b.
  destruct (placeholders_follow_parameters "users"
              [ Where "status" "=" (VStr "active");
                WhereEqual (Some [("role", VStr "admin"); ("age", VNum 30)]);
                OrderBy "id" None; Limit 5 None ]) as [_ H].
  destruct (H eq_refl) as [Hcount Horder].
  split; [exact Hcount |].
  destruct (Horder [mkPred "status" "=" (VStr "active")]
              (mkPred "role" "=" (VStr "admin"))
              [mkPred "age" "=" (VNum 30)] eq_refl)
    as (head & tail & Htext & Hhead & _ & _ & Hparam).
  exists head, tail. repeat split; assumption.
Defined.

(** ** Bulk insert *)

Section Bulk.

Variable drv : driver.

(** A failed validation names a column of the first row and the index of a
    row that lacks it or holds it as [undefined]. *)
Lemma check_row_names (ks : list string) (i : nat) (row : obj) (e : error) :
  check_row ks i row = Some e ->
  exists key,
    In key ks
    /\ ((has key row = false
         /\ e = Error ("Missing column " ++ dq ++ key ++ dq ++ " in row "
                         ++ show (Z.of_nat i)))
        \/ (has key row = true /\ JS.prop key row = VUndef
            /\ e = Error ("Undefined value for column " ++ dq ++ key ++ dq
                            ++ " in row " ++ show (Z.of_nat i)))).
Proof.
  induction ks as [| k ks IH]; cbn [check_row]; [discriminate |].
  destruct (has k row) eqn:Hhas; cbn [negb].
  - destruct (JS.prop k row) eqn:Hprop; cbn [is_undefined];
      try (intros H; destruct (IH H) as (key & Hin & Hcase);
           exists key; split; [right; exact Hin | exact Hcase]).
    intros H. injection H as <-. exists k.
    split; [left; reflexivity | right; auto].
  - intros H. injection H as <-. exists k.
    split; [left; reflexivity | left; auto].
Qed.

Lemma check_rows_names (ks : list string) (rows : list obj) (i : nat)
    (e : error) :
  check_rows ks i rows = Some e ->
  exists j row, nth_error rows j = Some row
                /\ check_row ks (i + j) row = Some e.
Proof.
  revert i. induction rows as [| row rows IH]; intros i; cbn [check_rows];
    [discriminate |].
  destruct (check_row ks i row) as [e' |] eqn:E.
  - intros H. injection H as <-. exists O, row.
    rewrite Nat.add_0_r. split; [reflexivity | exact E].
  - intros H. destruct (IH (S i) H) as (j & r & Hnth & Hrow).
    exists (S j), r. rewrite Nat.add_succ_r. split; assumption.
Qed.

(** A rejected argument: the wrapped error, and nothing sent or printed. *)
Lemma insertBulk_rejects (rows : list obj) (e : error) (this : DB)
    (w : world) :
  check_rows (match rows with r :: _ => keys r | [] => [] end) 0 rows = Some e ->
  insertBulk drv (Some (RowArray rows)) (this, w)
  = (Throw (Error ("BULK INSERT failed: " ++ message e)), (this, w)).
Proof.
  destruct rows as [| row0 rest]; [discriminate |].
  intros H. unfold insertBulk. rewrite H. reflexivity.
Qed.

Lemma insertBulk_rejects_empty (this : DB) (w : world) :
  insertBulk drv (Some (RowArray [])) (this, w)
  = (Throw (Error "BULK INSERT failed: insertBulk requires a non-empty array"),
     (this, w))
  /\ insertBulk drv (Some NotArray) (this, w)
     = (Throw (Error "BULK INSERT failed: insertBulk requires a non-empty array"),
        (this, w))
  /\ insertBulk drv None (this, w)
     = (Throw (Error "BULK INSERT failed: insertBulk requires a non-empty array"),
        (this, w)).
Proof. repeat split. Qed.

(** An accepted argument: one statement, the values of the columns of the
    first row taken row by row; the affected-row count comes back. *)
Lemma insertBulk_run (row0 : obj) (rest : list obj) (this : DB) (w : world) :
  let rows := row0 :: rest in
  let ks := keys row0 in
  let sql := insertBulk_sql ks rows this in
  let vals := flatten_values ks rows in
  check_rows ks 0 rows = None ->
  insertBulk drv (Some (RowArray rows)) (this, w)
  = (match execute drv (sent w) (route this) sql vals with
     | inl e => Throw (Error ("BULK INSERT failed: " ++ message e))
     | inr r => Ret (member "affectedRows" (fst r))
     end,
     (this, send (EvExecute (route this) sql vals) (logged sql vals w))).
Proof.
  intros rows ks sql vals H. subst rows ks sql vals.
  unfold insertBulk. cbv beta iota zeta. rewrite H. run.
  destruct (execute drv _ _ _ _); reflexivity.
Qed.

End Bulk.

(** The example of the specification: row 2 lacks a column of row 0, the
    error names row 2 and the column, and nothing is sent. *)
Example insertBulk_short_row :
  insertBulk Fixtures.writer (Some (RowArray Fixtures.short_rows))
    (DB_table "t", Fixtures.fresh_world)
  = (Throw (Error ("BULK INSERT failed: Missing column " ++ dq ++ "b" ++ dq
                     ++ " in row 2")),
     (DB_table "t", Fixtures.fresh_world)).
Proof. reflexivity. Qed.

(** C8 (the code departs from it). Only the columns of the first row are
    looked for in the other rows: a row with one column more is accepted,
    the statement is sent, and the value of the extra column is dropped. *)
Theorem insertBulk_accepts_extra_column :
  let run := insertBulk Fixtures.writer (Some (RowArray Fixtures.ragged_rows))
               (DB_table "t", Fixtures.fresh_world) in
  map keys Fixtures.ragged_rows = [["a"]; ["a"; "b"]]
  /\ fst run = Ret (VNum 2)
  /\ sent (snd (snd run))
     = [ EvExecute OnPool
           (insertBulk_sql ["a"] Fixtures.ragged_rows (DB_table "t"))
           [VNum 1; VNum 2] ]
  /\ normalize (insertBulk_sql ["a"] Fixtures.ragged_rows (DB_table "t"))
     = "INSERT INTO t (a) VALUES (?), (?)".
Proof. vm_compute. repeat split. Qed.

(** * Further properties of the code *)

(** ** The transaction coordinator, path by path *)

(** X1. A transaction that cannot start never runs the unit of work.  When
    the pool gives no connection, the pool's error leaves as it is after the
    single checkout request, and nothing is released.  When begin fails on
    the connection handed out, its error leaves as it is and the trace is
    checkout, begin, release. *)
Theorem transaction_does_not_start {A : Type} (drv : driver)
    (callback : trx -> M world A) (w : world) :
  (forall e,
      getConnection drv (sent w) = inl e ->
      transaction drv callback w = (Throw e, send EvGetConnection w))
  /\ (forall c e,
        getConnection drv (sent w) = inr c ->
        beginTransaction drv (sent w ++ [EvGetConnection]) c = Some e ->
        fst (transaction drv callback w) = Throw e
        /\ sent (snd (transaction drv callback w))
           = sent w ++ [EvGetConnection; EvBeginTransaction c; EvRelease c]).
Proof.
  split.
  - intros e He. unfold transaction, bind, pool_getConnection.
    rewrite He. reflexivity.
  - intros c e Hc Hb.
    unfold transaction, bind, try_finally, pool_getConnection,
      conn_beginTransaction, conn_release.
    rewrite Hc. cbn [sent send]. rewrite Hb. cbn [fst snd sent send].
    rewrite <- !app_assoc. split; reflexivity.
Qed.

Lemma transaction_does_not_start_witness :
  transaction Fixtures.exhausted (Fixtures.one_insert Fixtures.exhausted)
    Fixtures.fresh_world
  = (Throw (mkError "Too many connections" (Some "ER_CON_COUNT_ERROR")),
     send EvGetConnection Fixtures.fresh_world)
  /\ sent (snd (transaction Fixtures.no_begin
                  (Fixtures.one_insert Fixtures.no_begin) Fixtures.fresh_world))
     = [EvGetConnection; EvBeginTransaction 7%nat; EvRelease 7%nat].
Proof.
  destruct (@transaction_does_not_start value Fixtures.exhausted
              (Fixtures.one_insert Fixtures.exhausted) Fixtures.fresh_world)
    as [Hpool _].
  destruct (@transaction_does_not_start value Fixtures.no_begin
              (Fixtures.one_insert Fixtures.no_begin) Fixtures.fresh_world)
    as [_ Hbegin].
  split.
  - apply Hpool. reflexivity.
  - destruct (Hbegin 7%nat
                (mkError "Lost connection" (Some "PROTOCOL_CONNECTION_LOST"))
                eq_refl eq_refl) as [_ Htrace].
    exact Htrace.
Defined.

(** X2. Once a connection is checked out, whatever happens next (begin
    fails, the unit of work throws or returns, commit fails or succeeds),
    the last request of the transaction is the release of that
    connection. *)
Theorem transaction_releases_last {A : Type} (drv : driver)
    (callback : trx -> M world A) (w : world) (c : conn) :
  getConnection drv (sent w) = inr c ->
  exists w', snd (transaction drv callback w) = send (EvRelease c) w'.
Proof.
  intros Hc.
  unfold transaction, bind, try_finally, pool_getConnection,
    conn_beginTransaction, conn_commit, conn_release, ret.
  rewrite Hc. cbn [sent send].
  destruct (beginTransaction drv (sent w ++ [EvGetConnection]) c) as [e |];
    [eexists; reflexivity |].
  destruct (callback (make_trx drv c) _) as [[a | e] w2]; cbn [sent send];
    [| eexists; reflexivity].
  destruct (commit drv (sent w2) c); eexists; reflexivity.
Qed.

Lemma transaction_releases_last_witness :
  exists w',
    snd (transaction Fixtures.no_commit (Fixtures.one_insert Fixtures.no_commit)
           Fixtures.fresh_world)
    = send (EvRelease 7%nat) w'.
Proof.
  apply (@transaction_releases_last value Fixtures.no_commit
           (Fixtures.one_insert Fixtures.no_commit) Fixtures.fresh_world 7%nat).
  reflexivity.
Defined.

(** X3. In a started transaction whose unit of work adds the requests
    [evs]: when the unit returns, the trace ends with [evs], commit,
    release; when it throws, with [evs], release, and no commit is
    requested by the coordinator. *)
Theorem transaction_commits_iff_returned {A : Type} (drv : driver)
    (callback : trx -> M world A) (w w' : world) (c : conn)
    (o : outcome A) (evs : list event) :
  getConnection drv (sent w) = inr c ->
  beginTransaction drv (sent w ++ [EvGetConnection]) c = None ->
  callback (make_trx drv c) (entered c w) = (o, w') ->
  sent w' = sent (entered c w) ++ evs ->
  sent (snd (transaction drv callback w))
  = sent w ++ [EvGetConnection; EvBeginTransaction c] ++ evs
      ++ match o with
         | Ret _ => [EvCommit c; EvRelease c]
         | Throw _ => [EvRelease c]
         end.
Proof.
  intros Hc Hb Hcb Hevs.
  unfold transaction, bind, try_finally, pool_getConnection,
    conn_beginTransaction, conn_commit, conn_release, ret.
  rewrite Hc. cbn [sent send]. rewrite Hb.
  fold (entered c w). rewrite Hcb.
  destruct o as [a | e].
  - destruct (commit drv (sent w') c); cbn [fst snd sent send];
      rewrite Hevs; unfold entered; cbn [sent send];
      rewrite <- !app_assoc; reflexivity.
  - cbn [fst snd sent send]. rewrite Hevs. unfold entered. cbn [sent send].
    rewrite <- !app_assoc. reflexivity.
Qed.

Lemma transaction_commits_iff_returned_witness :
  sent (snd (transaction Fixtures.writer (Fixtures.one_insert Fixtures.writer)
               Fixtures.fresh_world))
  = [ EvGetConnection; EvBeginTransaction 7%nat;
      EvExecute (OnConn 7%nat) (insert_sql ["name"] (DB_table "users"))
        [VStr "x"];
      EvCommit 7%nat; EvRelease 7%nat ].
Proof.
  apply (@transaction_commits_iff_returned value Fixtures.writer
           (Fixtures.one_insert Fixtures.writer) Fixtures.fresh_world
           (snd (Fixtures.one_insert Fixtures.writer
                   (make_trx Fixtures.writer 7%nat)
                   (entered 7%nat Fixtures.fresh_world)))
           7%nat (Ret (VNum 1))
           [EvExecute (OnConn 7%nat) (insert_sql ["name"] (DB_table "users"))
              [VStr "x"]]); reflexivity.
Defined.

(** X4. When the unit of work returns but commit fails, the caller gets the
    error of commit as it is, the result of the unit of work is lost, and
    the connection is still released after the commit request. *)
Theorem transaction_commit_fails {A : Type} (drv : driver)
    (callback : trx -> M world A) (w w' : world) (c : conn) (a : A)
    (e : error) :
  getConnection drv (sent w) = inr c ->
  beginTransaction drv (sent w ++ [EvGetConnection]) c = None ->
  callback (make_trx drv c) (entered c w) = (Ret a, w') ->
  commit drv (sent w') c = Some e ->
  transaction drv callback w
  = (Throw e, send (EvRelease c) (send (EvCommit c) w')).
Proof.
  intros Hc Hb Hcb Hk.
  unfold transaction, bind, try_finally, pool_getConnection,
    conn_beginTransaction, conn_commit, conn_release, ret.
  rewrite Hc. cbn [sent send]. rewrite Hb.
  fold (entered c w). rewrite Hcb, Hk. reflexivity.
Qed.

Lemma transaction_commit_fails_witness :
  fst (transaction Fixtures.no_commit (Fixtures.one_insert Fixtures.no_commit)
         Fixtures.fresh_world)
  = Throw (mkError "Deadlock found" (Some "ER_LOCK_DEADLOCK")).
Proof.
  rewrite (@transaction_commit_fails value Fixtures.no_commit
             (Fixtures.one_insert Fixtures.no_commit) Fixtures.fresh_world
             (snd (Fixtures.one_insert Fixtures.no_commit
                     (make_trx Fixtures.no_commit 7%nat)
                     (entered 7%nat Fixtures.fresh_world)))
             7%nat (VNum 1)
             (mkError "Deadlock found" (Some "ER_LOCK_DEADLOCK")));
    reflexivity.
Defined.

(** ** Clause calls, field by field *)

Lemma whereEqual_state (data : obj) (this : DB) :
  whereEqual (Some data) this
  = {| table := table this; _trx := _trx this; selectCols := selectCols this;
       joins := joins this;
       wheres := wheres this ++ map fragment (equalities data);
       params := params this ++ map pred_value (equalities data);
       order := order this; limitVal := limitVal this |}.
Proof.
  unfold whereEqual. revert this.
  induction data as [| [k v] data IH]; intros this; cbn [fold_left fst snd].
  - destruct this. cbn. rewrite !app_nil_r. reflexivity.
  - rewrite IH. cbn. rewrite <- !app_assoc. reflexivity.
Qed.

Lemma whereEqual_default (this : DB) : whereEqual None this = this.
Proof. reflexivity. Qed.

(** A field that no call of a chain changes is the same after the chain. *)
Lemma chain_keeps {X : Type} (f : DB -> X) (cs : list clause) (this : DB) :
  (forall c b, In c cs -> f (call c b) = f b) ->
  f (chain cs this) = f this.
Proof.
  unfold chain. revert this.
  induction cs as [| c cs IH]; intros this H; [reflexivity |].
  cbn [fold_left]. rewrite IH.
  - apply H. left. reflexivity.
  - intros d b Hin. apply H. right. exact Hin.
Qed.

Lemma chain_app (cs cs' : list clause) (this : DB) :
  chain (cs ++ cs') this = chain cs' (chain cs this).
Proof. apply fold_left_app. Qed.

Lemma call_keeps_table (c : clause) (this : DB) :
  table (call c this) = table this /\ _trx (call c this) = _trx this.
Proof.
  destruct c as [? ? ? | [data |] | | | | | |]; cbn [call];
    rewrite ?whereEqual_state; split; reflexivity.
Qed.

Lemma call_keeps_selectCols (c : clause) (this : DB) :
  is_select c = false -> selectCols (call c this) = selectCols this.
Proof.
  destruct c as [? ? ? | [data |] | | | | | |]; cbn [call is_select];
    rewrite ?whereEqual_state; try reflexivity; discriminate.
Qed.

Lemma call_keeps_order (c : clause) (this : DB) :
  is_orderBy c = false -> order (call c this) = order this.
Proof.
  destruct c as [? ? ? | [data |] | | | | | |]; cbn [call is_orderBy];
    rewrite ?whereEqual_state; try reflexivity; discriminate.
Qed.

Lemma call_keeps_limitVal (c : clause) (this : DB) :
  is_limit c = false -> limitVal (call c this) = limitVal this.
Proof.
  destruct c as [? ? ? | [data |] | | | | | |]; cbn [call is_limit];
    rewrite ?whereEqual_state; try reflexivity; discriminate.
Qed.

Lemma none_of_in (kind : clause -> bool) (cs : list clause) (c : clause) :
  none_of kind cs = true -> In c cs -> kind c = false.
Proof.
  unfold none_of. rewrite forallb_forall. intros H Hin.
  apply negb_true_iff. apply H. exact Hin.
Qed.

Lemma chain_keeps_table (cs : list clause) (this : DB) :
  table (chain cs this) = table this /\ _trx (chain cs this) = _trx this.
Proof.
  split; apply chain_keeps; intros c b _; apply call_keeps_table.
Qed.

(** X5. A builder keeps its table and its route through any chain of clause
    calls and through a terminal operation: a builder made by [DB.table]
    sends to the pool, one made by [trx.table] sends on the connection of
    its transaction, and after [get] the instance is again the fresh
    builder it was made as. *)
Theorem builder_keeps_table_and_route (drv : driver) (name : string)
    (cs : list clause) (c : option conn) (w : world) :
  let fresh := match c with
               | Some k => trx_table (make_trx drv k) name
               | None => DB_table name
               end in
  let b := chain cs fresh in
  table b = name
  /\ route b = match c with Some k => OnConn k | None => OnPool end
  /\ sent (snd (snd (get drv (b, w))))
     = sent w ++ [EvExecute (route fresh) (buildSelect b) (params b)]
  /\ fst (snd (get drv (b, w))) = fresh.
Proof.
  intros fresh b.
  destruct (chain_keeps_table cs fresh) as [Ht Hx]. fold b in Ht, Hx.
  assert (Hroute : route b = route fresh) by (unfold route; rewrite Hx; reflexivity).
  split; [rewrite Ht; destruct c; reflexivity |].
  split; [rewrite Hroute; destruct c; reflexivity |].
  rewrite get_run. cbn [fst snd]. rewrite sent_send, sent_logged, Hroute.
  split; [reflexivity |].
  unfold reset. rewrite Ht, Hx. destruct c; reflexivity.
Qed.

(** X6. Selection, ordering and limit are overwritten, not accumulated: the
    last [select], [orderBy] or [limit] call of a chain decides the text,
    whatever was called before it and whatever calls of other kinds
    follow. *)
Theorem last_call_wins (cs cs' : list clause) (this : DB) :
  (forall cols,
      none_of is_select cs' = true ->
      selectCols (chain (cs ++ Select cols :: cs') this)
      = match cols with
        | Some (ColArray l) => array_join ", " l
        | Some (ColText c) => c
        | None => "*"
        end)
  /\ (forall column dir,
        none_of is_orderBy cs' = true ->
        order (chain (cs ++ OrderBy column dir :: cs') this)
        = ("ORDER BY " ++ column ++ " "
             ++ match dir with Some d => d | None => "ASC" end)%string)
  /\ (forall count offset,
        none_of is_limit cs' = true ->
        limitVal (chain (cs ++ Limit count offset :: cs') this)
        = match offset with
          | Some o => ("LIMIT " ++ show o ++ ", " ++ show count)%string
          | None => ("LIMIT " ++ show count)%string
          end).
Proof.
  repeat split; intros;
    rewrite chain_app; change (chain (?c :: cs') ?b) with (chain cs' (call c b)).
  - rewrite (chain_keeps selectCols)
      by (intros d b Hin; apply call_keeps_selectCols;
          apply (none_of_in _ cs'); assumption).
    destruct cols as [[l | c] |]; reflexivity.
  - rewrite (chain_keeps order)
      by (intros d b Hin; apply call_keeps_order;
          apply (none_of_in _ cs'); assumption).
    reflexivity.
  - rewrite (chain_keeps limitVal)
      by (intros d b Hin; apply call_keeps_limitVal;
          apply (none_of_in _ cs'); assumption).
    destruct offset; reflexivity.
Qed.

Lemma last_call_wins_witness :
  let b := chain ([Limit 50 None; OrderBy "name" None]
                    ++ Limit 10 (Some 20)
                    :: [OrderBy "id" (Some "DESC"); Select None])
             (DB_table "users") in
  limitVal b = "LIMIT 20, 10".
Proof.
  intros b.
  destruct (last_call_wins [Limit 50 None; OrderBy "name" None]
              [OrderBy "id" (Some "DESC"); Select None] (DB_table "users"))
    as (_ & _ & Hlimit).
  exact (Hlimit 10 (Some 20) eq_refl).
Defined.

(** X7. Joins accumulate: the join fragments of a chain are those of its
    [join], [leftJoin] and [rightJoin] calls in call order, after the ones
    already present; no other call touches them. *)
Theorem joins_accumulate (cs : list clause) (this : DB) :
  joins (chain cs this) = joins this ++ flat_map joined cs.
Proof.
  unfold chain. revert this.
  induction cs as [| c cs IH]; intros this; cbn [fold_left flat_map].
  - rewrite app_nil_r. reflexivity.
  - rewrite IH. rewrite app_assoc. f_equal.
    destruct c as [? ? ? | [data |] | ? ? ? ? [ty |] | | | | |];
      cbn [call joined]; rewrite ?whereEqual_state; cbn;
      rewrite ?app_nil_r; reflexivity.
Qed.

(** X8. [whereEqual] is the sequence of [where(k, "=", v)] calls over the
    entries of its argument in enumeration order; an empty or omitted
    object changes nothing, and two objects one after the other act as
    their entries put end to end. *)
Theorem whereEqual_is_where_per_entry (data more : obj) (this : DB) :
  whereEqual (Some data) this
  = chain (map (fun kv => Where (fst kv) "=" (snd kv)) data) this
  /\ whereEqual (Some []) this = this
  /\ whereEqual None this = this
  /\ whereEqual (Some more) (whereEqual (Some data) this)
     = whereEqual (Some (data ++ more)) this.
Proof.
  repeat split.
  - unfold whereEqual, chain. revert this.
    induction data as [| kv data IH]; intros this; [reflexivity |].
    cbn [map fold_left]. rewrite IH. reflexivity.
  - unfold whereEqual. rewrite fold_left_app. reflexivity.
Qed.

(** ** Placeholders of whole statements *)

Lemma placeholders_nl : placeholders nl = O.
Proof. reflexivity. Qed.

Lemma literal_true (s : string) : literal s = true <-> placeholders s = O.
Proof. unfold literal. apply Nat.eqb_eq. Qed.

Lemma marks_cons (x : string) (xs : list string) :
  marks (x :: xs) = (placeholders x + marks xs)%nat.
Proof. reflexivity. Qed.

Lemma marks_one (x : string) : marks [x] = placeholders x.
Proof. unfold marks. cbn. apply Nat.add_0_r. Qed.

Lemma marks_app (xs ys : list string) : marks (xs ++ ys) = (marks xs + marks ys)%nat.
Proof. unfold marks. rewrite map_app. apply list_sum_app. Qed.

Lemma marks_literal (xs : list string) :
  forallb literal xs = true -> marks xs = O.
Proof.
  induction xs as [| x xs IH]; [reflexivity |].
  cbn [forallb]. intros H. apply andb_true_iff in H. destruct H as [Hx Hxs].
  apply literal_true in Hx. rewrite marks_cons, Hx, (IH Hxs). reflexivity.
Qed.

(** [join] with a separator free of [?] adds no placeholder. *)
Lemma placeholders_array_join (sep : string) (xs : list string) :
  placeholders sep = O -> placeholders (array_join sep xs) = marks xs.
Proof.
  intros Hsep. induction xs as [| x xs IH]; [reflexivity |].
  rewrite array_join_cons, placeholders_app, marks_cons.
  f_equal. destruct xs as [| y ys]; [reflexivity |].
  unfold join_tail. rewrite placeholders_app, Hsep. exact IH.
Qed.

Lemma placeholders_uint (d : Decimal.uint) :
  placeholders (NilEmpty.string_of_uint d) = O.
Proof. induction d; cbn; try assumption; reflexivity. Qed.

(** A rendered integer holds no [?]. *)
Lemma placeholders_show (n : Z) : placeholders (show n) = O.
Proof.
  unfold show, NilZero.string_of_int, NilZero.string_of_uint.
  destruct (Z.to_int n) as [d | d]; destruct d; cbn;
    try reflexivity; apply placeholders_uint.
Qed.

Lemma marks_fragments (ps : list predicate) :
  forallb plain ps = true -> marks (map fragment ps) = length ps.
Proof.
  induction ps as [| p ps IH]; [reflexivity |].
  cbn [forallb]. intros H. apply andb_true_iff in H. destruct H as [Hp Hps].
  cbn [map length]. rewrite marks_cons, (placeholders_fragment p Hp), (IH Hps).
  reflexivity.
Qed.

Lemma plain_equalities (data : obj) :
  forallb literal (keys data) = true -> forallb plain (equalities data) = true.
Proof.
  induction data as [| [k v] data IH]; [reflexivity |].
  cbn [keys map fst forallb equalities]. intros H.
  apply andb_true_iff in H. destruct H as [Hk Hd].
  apply andb_true_iff. split; [| apply IH; exact Hd].
  unfold plain. cbn [pred_column pred_operator]. unfold literal in Hk.
  rewrite Hk. reflexivity.
Qed.

Lemma aligned_fresh (t : string) (c : option conn) :
  literal t = true ->
  aligned {| table := t; _trx := c; selectCols := "*"; joins := [];
             wheres := []; params := []; order := ""; limitVal := "" |}.
Proof.
  intros Ht. apply literal_true in Ht. unfold aligned.
  cbn [table selectCols joins wheres params order limitVal].
  repeat split; try reflexivity. exact Ht.
Qed.

(** A clean call keeps the builder aligned. *)
Lemma aligned_call (c : clause) (this : DB) :
  clean c = true -> aligned this -> aligned (call c this).
Proof.
  intros Hc (Ht & Hs & Hj & Hw & Ho & Hl). unfold aligned.
  destruct c as [column operator v | [data |] | tbl f o s ty | tbl f o s
                | tbl f o s | [[l | x] |] | column dir | n off];
    cbn [call clean] in *; rewrite ?whereEqual_state;
    cbn [where_ whereEqual join leftJoin rightJoin select orderBy limit
         table selectCols joins wheres params order limitVal];
    repeat (apply andb_true_iff in Hc; destruct Hc as [Hc ?]);
    repeat match goal with
           | H : literal _ = true |- _ => apply literal_true in H
           end;
    repeat split; try assumption;
    rewrite ?marks_app, ?length_app, ?length_map, ?placeholders_app,
      ?placeholders_show;
    try reflexivity.
  - rewrite Hw, marks_one, !placeholders_app, Hc, H. reflexivity.
  - rewrite Hw, marks_fragments by (apply plain_equalities; assumption).
    reflexivity.
  - rewrite Hj, marks_one, !placeholders_app, Hc, H, H0, H1, H2. reflexivity.
  - rewrite Hj, marks_one, !placeholders_app, Hc, H, H0, H1. reflexivity.
  - rewrite Hj, marks_one, !placeholders_app, Hc, H, H0, H1. reflexivity.
  - rewrite placeholders_array_join by reflexivity.
    apply marks_literal. assumption.
  - rewrite Hc, H. reflexivity.
  - destruct off; rewrite ?placeholders_app, ?placeholders_show; reflexivity.
Qed.

Lemma aligned_chain (cs : list clause) (this : DB) :
  forallb clean cs = true -> aligned this -> aligned (chain cs this).
Proof.
  unfold chain. revert this.
  induction cs as [| c cs IH]; intros this Hcs Ha; [exact Ha |].
  cbn [forallb] in Hcs. apply andb_true_iff in Hcs. destruct Hcs as [Hc Hcs].
  cbn [fold_left]. apply IH; [exact Hcs | apply aligned_call; assumption].
Qed.

Lemma placeholders_where_clause (this : DB) :
  placeholders (where_clause this) = marks (wheres this).
Proof.
  unfold where_clause. destruct (wheres this) as [| f fs] eqn:E; [reflexivity |].
  rewrite placeholders_app, placeholders_array_join by reflexivity.
  reflexivity.
Qed.

Lemma marks_question (ks : list string) :
  marks (map (fun _ : string => "?") ks) = length ks.
Proof.
  induction ks as [| k ks IH]; [reflexivity |].
  cbn [map length]. rewrite marks_cons, IH. reflexivity.
Qed.

Lemma marks_assignments (ks : list string) :
  forallb literal ks = true ->
  marks (map (fun k => k ++ "=?")%string ks) = length ks.
Proof.
  induction ks as [| k ks IH]; [reflexivity |].
  cbn [forallb]. intros H. apply andb_true_iff in H. destruct H as [Hk Hks].
  apply literal_true in Hk. cbn [map length].
  rewrite marks_cons, placeholders_app, Hk, (IH Hks). reflexivity.
Qed.

(** Counts the placeholders of a compiled statement piece by piece. *)
Ltac count_marks :=
  rewrite ?placeholders_app, ?placeholders_nl, ?placeholders_where_clause,
    ?placeholders_array_join by reflexivity.

(** X9. Built from texts free of [?], every statement compiled from the
    accumulated clauses (the SELECT of [get], the COUNT of [count] and of
    [paginate], the DELETE) has exactly as many placeholders as the builder
    holds bound parameters: joins, selection, ordering and limit bring
    none. *)
Theorem compiled_statements_aligned (t column : string) (cs : list clause) :
  let b := chain cs (DB_table t) in
  literal t = true -> forallb clean cs = true -> literal column = true ->
  placeholders (buildSelect b) = length (params b)
  /\ placeholders (count_sql column b) = length (params b)
  /\ placeholders (paginate_count_sql b) = length (params b)
  /\ placeholders (delete_sql b) = length (params b).
Proof.
  intros b Ht Hcs Hcol.
  destruct (aligned_chain cs (DB_table t) Hcs (aligned_fresh t None Ht))
    as (Htab & Hsel & Hj & Hw & Ho & Hl).
  fold b in Htab, Hsel, Hj, Hw, Ho, Hl. apply literal_true in Hcol.
  unfold buildSelect, count_sql, paginate_count_sql, delete_sql.
  repeat split; count_marks;
    rewrite ?Htab, ?Hsel, ?Hj, ?Hw, ?Ho, ?Hl, ?Hcol; cbn; lia.
Qed.

Lemma compiled_statements_aligned_witness :
  let b := chain [ Select (Some (ColArray ["users.id"; "profiles.bio"]));
                   LeftJoin "profiles" "users.id" "=" "profiles.user_id";
                   Where "users.age" ">" (VNum 18);
                   WhereEqual (Some [("status", VStr "active")]);
                   OrderBy "users.id" (Some "DESC"); Limit 10 (Some 20) ]
             (DB_table "users") in
  placeholders (buildSelect b) = 2%nat
  /\ placeholders (count_sql "*" b) = 2%nat.
Proof.
  intros b.
  destruct (compiled_statements_aligned "users" "*"
              [ Select (Some (ColArray ["users.id"; "profiles.bio"]));
                LeftJoin "profiles" "users.id" "=" "profiles.user_id";
                Where "users.age" ">" (VNum 18);
                WhereEqual (Some [("status", VStr "active")]);
                OrderBy "users.id" (Some "DESC"); Limit 10 (Some 20) ]
              eq_refl eq_refl eq_refl) as (Hs & Hc & _).
  split; [exact Hs | exact Hc].
Defined.

(** X10. The UPDATE statement puts the placeholders of its SET clause, one
    per column of the record, before those of its WHERE clause, one per
    bound parameter, and [update] sends the values of the record followed
    by the bound parameters: placeholders and parameters agree in number
    and in order. *)
Theorem update_statement_aligned (drv : driver) (t : string)
    (cs : list clause) (data : obj) (w : world) :
  let b := chain cs (DB_table t) in
  let set := array_join ", " (map (fun k => k ++ "=?")%string (keys data)) in
  let cond := array_join " AND " (wheres b) in
  literal t = true -> forallb clean cs = true ->
  forallb literal (keys data) = true ->
  wheres b <> [] ->
  sent (snd (snd (update drv (Some data) (b, w))))
  = sent w ++ [EvExecute OnPool (update_sql data b) (values data ++ params b)]
  /\ exists head middle tail,
       update_sql data b = (head ++ set ++ middle ++ cond ++ tail)%string
       /\ placeholders head = O
       /\ placeholders set = length (values data)
       /\ placeholders middle = O
       /\ placeholders cond = length (params b)
       /\ placeholders tail = O.
Proof.
  intros b set cond Ht Hcs Hk Hw.
  destruct (aligned_chain cs (DB_table t) Hcs (aligned_fresh t None Ht))
    as (Htab & _ & _ & Hmarks & _ & _).
  fold b in Htab, Hmarks.
  split.
  - rewrite (update_run drv data b w Hw). cbn [fst snd].
    rewrite sent_send, sent_logged.
    assert (Hroute : route b = OnPool).
    { unfold route. destruct (chain_keeps_table cs (DB_table t)) as [_ Hx].
      fold b in Hx. rewrite Hx. reflexivity. }
    rewrite Hroute. reflexivity.
  - exists (nl ++ "        UPDATE " ++ table b ++ nl ++ "        SET ")%string,
           (nl ++ "        WHERE ")%string,
           (nl ++ "      ")%string.
    repeat split.
    + unfold update_sql. fold set. fold cond.
      rewrite !text_app_assoc. reflexivity.
    + count_marks. rewrite Htab. reflexivity.
    + unfold set. count_marks. rewrite marks_assignments by assumption.
      unfold keys, values. rewrite !length_map. reflexivity.
    + unfold cond. count_marks. exact Hmarks.
Qed.

Lemma update_statement_aligned_witness :
  let b := chain [Where "id" "=" (VNum 5)] (DB_table "users") in
  sent (snd (snd (update Fixtures.writer
                    (Some [("name", VStr "x"); ("role", VStr "admin")])
                    (b, Fixtures.fresh_world))))
  = [EvExecute OnPool
       (update_sql [("name", VStr "x"); ("role", VStr "admin")] b)
       [VStr "x"; VStr "admin"; VNum 5]].
Proof.
  intros b.
  destruct (update_statement_aligned Fixtures.writer "users"
              [Where "id" "=" (VNum 5)]
              [("name", VStr "x"); ("role", VStr "admin")] Fixtures.fresh_world
              eq_refl eq_refl eq_refl) as [Hsent _]; [discriminate |].
  exact Hsent.
Defined.

(** X11. The single-row INSERT holds one placeholder per column of the
    record, in the order of the values [insert] sends, when the table and
    column names are free of [?]. *)
Theorem insert_statement_aligned (drv : driver) (data : obj) (this : DB)
    (w : world) :
  literal (table this) = true ->
  forallb literal (keys data) = true ->
  first_undefined data = None ->
  placeholders (insert_sql (keys data) this) = length (values data)
  /\ sent (snd (snd (insert drv (Some data) (this, w))))
     = sent w ++ [EvExecute (route this) (insert_sql (keys data) this)
                    (values data)].
Proof.
  intros Ht Hk Hdef. apply literal_true in Ht. split.
  - unfold insert_sql. count_marks.
    rewrite Ht, marks_question, (marks_literal _ Hk).
    unfold keys, values. rewrite !length_map. cbn. lia.
  - rewrite (insert_run drv data this w Hdef). cbn [fst snd].
    rewrite sent_send, sent_logged. reflexivity.
Qed.

Lemma insert_statement_aligned_witness :
  placeholders (insert_sql ["name"; "email"] (DB_table "users")) = 2%nat.
Proof.
  destruct (insert_statement_aligned Fixtures.writer
              [("name", VStr "x"); ("email", VNull)] (DB_table "users")
              Fixtures.fresh_world eq_refl eq_refl eq_refl) as [H _].
  exact H.
Defined.

(** ** Bulk insert: shape of the statement and exactness of the check *)

Lemma flatten_values_cons (ks : list string) (row : obj) (rows : list obj) :
  flatten_values ks (row :: rows)
  = map (fun k => JS.prop k row) ks ++ flatten_values ks rows.
Proof. reflexivity. Qed.

Lemma flatten_values_length (ks : list string) (rows : list obj) :
  length (flatten_values ks rows) = (length rows * length ks)%nat.
Proof.
  induction rows as [| row rows IH]; [reflexivity |].
  rewrite flatten_values_cons, length_app, length_map, IH. reflexivity.
Qed.

Lemma flatten_values_nth (ks : list string) (rows : list obj) (i j : nat)
    (row : obj) (k : string) :
  nth_error rows i = Some row -> nth_error ks j = Some k ->
  nth_error (flatten_values ks rows) (i * length ks + j) = Some (JS.prop k row).
Proof.
  revert i. induction rows as [| r rows IH]; intros i Hrow Hk.
  - destruct i; discriminate.
  - rewrite flatten_values_cons. destruct i as [| i].
    + cbn in Hrow. injection Hrow as ->. cbn [Nat.mul Nat.add].
      rewrite nth_error_app1
        by (rewrite length_map; apply nth_error_Some; rewrite Hk; discriminate).
      rewrite nth_error_map, Hk. reflexivity.
    + cbn in Hrow. rewrite nth_error_app2 by (rewrite length_map; cbn; lia).
      rewrite length_map.
      replace (S i * length ks + j - length ks)%nat
        with (i * length ks + j)%nat by (cbn; lia).
      apply IH; assumption.
Qed.

Lemma marks_repeat (x : string) (rows : list obj) :
  marks (map (fun _ : obj => x) rows) = (length rows * placeholders x)%nat.
Proof.
  induction rows as [| r rows IH]; [reflexivity |].
  cbn [map length]. rewrite marks_cons, IH. reflexivity.
Qed.

(** X12. The multi-row INSERT holds one placeholder group per row and one
    placeholder per column of the first row, and the values sent with it
    are laid out row by row: the value of column [j] of row [i] is the
    parameter at position [i * columns + j]. *)
Theorem insertBulk_statement_aligned (ks : list string) (rows : list obj)
    (this : DB) :
  literal (table this) = true -> forallb literal ks = true ->
  placeholders (insertBulk_sql ks rows this) = (length rows * length ks)%nat
  /\ length (flatten_values ks rows) = (length rows * length ks)%nat
  /\ forall i j row k,
       nth_error rows i = Some row -> nth_error ks j = Some k ->
       nth_error (flatten_values ks rows) (i * length ks + j)
       = Some (JS.prop k row).
Proof.
  intros Ht Hk. apply literal_true in Ht.
  split; [| split; [apply flatten_values_length |]].
  - unfold insertBulk_sql. cbv zeta. count_marks.
    rewrite Ht, marks_repeat, (marks_literal _ Hk). count_marks.
    rewrite marks_question. cbn. lia.
  - intros i j row k. apply flatten_values_nth.
Qed.

Lemma insertBulk_statement_aligned_witness :
  placeholders (insertBulk_sql ["a"; "b"] Fixtures.short_rows (DB_table "t"))
  = 6%nat
  /\ nth_error (flatten_values ["a"; "b"] Fixtures.short_rows) 3
     = Some (VNum 2).
Proof.
  destruct (insertBulk_statement_aligned ["a"; "b"] Fixtures.short_rows
              (DB_table "t") eq_refl eq_refl) as (Hmarks & _ & Hnth).
  split; [exact Hmarks |].
  exact (Hnth 1%nat 1%nat [("a", VNum 2); ("b", VNum 2)] "b" eq_refl eq_refl).
Defined.

Lemma is_undefined_true (v : value) : is_undefined v = true <-> v = VUndef.
Proof. destruct v; cbn; split; intros H; try discriminate; reflexivity. Qed.

Lemma check_row_complete (ks : list string) (i : nat) (row : obj) :
  check_row ks i row = None <-> complete ks row = true.
Proof.
  unfold complete. induction ks as [| k ks IH]; cbn [check_row forallb].
  - split; reflexivity.
  - destruct (has k row); cbn [negb andb].
    + destruct (is_undefined (JS.prop k row)); cbn [negb andb];
        [split; discriminate | exact IH].
    + split; discriminate.
Qed.

(** The row reported by the check is the first incomplete one. *)
Lemma check_rows_first (ks : list string) (rows : list obj) (i : nat)
    (e : error) :
  check_rows ks i rows = Some e ->
  exists j row,
    nth_error rows j = Some row
    /\ check_row ks (i + j) row = Some e
    /\ forallb (complete ks) (firstn j rows) = true.
Proof.
  revert i. induction rows as [| row rows IH]; intros i; cbn [check_rows];
    [discriminate |].
  destruct (check_row ks i row) as [e' |] eqn:E.
  - intros H. injection H as <-. exists O, row.
    rewrite Nat.add_0_r. repeat split. exact E.
  - intros H. destruct (IH (S i) H) as (j & r & Hnth & Hrow & Hpre).
    exists (S j), r. rewrite Nat.add_succ_r.
    repeat split; try assumption.
    cbn [firstn forallb]. apply check_row_complete in E. rewrite E. exact Hpre.
Qed.

Lemma check_rows_complete (ks : list string) (rows : list obj) (i : nat) :
  check_rows ks i rows = None <-> forallb (complete ks) rows = true.
Proof.
  revert i. induction rows as [| row rows IH]; intros i;
    cbn [check_rows forallb]; [split; reflexivity |].
  destruct (check_row ks i row) as [e |] eqn:E.
  - assert (complete ks row = false) as ->.
    { destruct (complete ks row) eqn:C; [| reflexivity].
      apply check_row_complete with (i := i) in C. congruence. }
    split; discriminate.
  - apply check_row_complete in E. rewrite E. apply IH.
Qed.

(** X13. [insertBulk] sends its statement exactly when every row gives
    every column of the first row a value other than [undefined].
    Otherwise nothing is sent and the error is the one of the first
    incomplete row, for its index. *)
Theorem insertBulk_check_is_exact (drv : driver) (row0 : obj)
    (rest : list obj) (this : DB) (w : world) :
  let rows := row0 :: rest in
  let ks := keys row0 in
  let run := insertBulk drv (Some (RowArray rows)) (this, w) in
  (forallb (complete ks) rows = true ->
   sent (snd (snd run))
   = sent w ++ [EvExecute (route this) (insertBulk_sql ks rows this)
                  (flatten_values ks rows)])
  /\ (forallb (complete ks) rows = false ->
      exists i row e,
        nth_error rows i = Some row
        /\ complete ks row = false
        /\ forallb (complete ks) (firstn i rows) = true
        /\ check_row ks i row = Some e
        /\ run = (Throw (Error ("BULK INSERT failed: " ++ message e)),
                  (this, w))).
Proof.
  intros rows ks run. subst run. split; intros H.
  - apply check_rows_complete with (i := O) in H.
    subst rows ks. rewrite (insertBulk_run drv row0 rest this w H).
    cbn [fst snd]. rewrite sent_send, sent_logged. reflexivity.
  - destruct (check_rows ks 0 rows) as [e |] eqn:E.
    + destruct (check_rows_first ks rows 0 e E) as (i & row & Hnth & Hrow & Hpre).
      exists i, row, e. cbn [Nat.add] in Hrow.
      repeat split; try assumption.
      * destruct (complete ks row) eqn:C; [| reflexivity].
        apply check_row_complete with (i := i) in C. congruence.
      * apply (insertBulk_rejects drv rows e this w). exact E.
    + apply check_rows_complete in E. congruence.
Qed.

Lemma insertBulk_check_is_exact_witness :
  sent (snd (snd (insertBulk Fixtures.writer
                    (Some (RowArray Fixtures.ragged_rows))
                    (DB_table "t", Fixtures.fresh_world))))
  = [EvExecute OnPool (insertBulk_sql ["a"] Fixtures.ragged_rows (DB_table "t"))
       (flatten_values ["a"] Fixtures.ragged_rows)]
  /\ exists i row e,
       nth_error Fixtures.short_rows i = Some row
       /\ complete ["a"; "b"] row = false
       /\ forallb (complete ["a"; "b"]) (firstn i Fixtures.short_rows) = true
       /\ check_row ["a"; "b"] i row = Some e
       /\ insertBulk Fixtures.writer (Some (RowArray Fixtures.short_rows))
            (DB_table "t", Fixtures.fresh_world)
          = (Throw (Error ("BULK INSERT failed: " ++ message e)),
             (DB_table "t", Fixtures.fresh_world)).
Proof.
  split.
  - destruct (insertBulk_check_is_exact Fixtures.writer
                [("a", VNum 1)] [[("a", VNum 2); ("b", VNum 3)]]
                (DB_table "t") Fixtures.fresh_world) as [H _].
    exact (H eq_refl).
  - destruct (insertBulk_check_is_exact Fixtures.writer
                [("a", VNum 1); ("b", VNum 1)]
                [[("a", VNum 2); ("b", VNum 2)]; [("a", VNum 3)]]
                (DB_table "t") Fixtures.fresh_world) as [_ H].
    exact (H eq_refl).
Defined.

(** ** Single insert: exactness of the check *)

Lemma first_undefined_none (data : obj) :
  first_undefined data = None <-> ~ In VUndef (values data).
Proof.
  induction data as [| [k v] data IH]; cbn [first_undefined values map snd In].
  - split; [intros _ [] | reflexivity].
  - destruct (is_undefined v) eqn:E.
    + apply is_undefined_true in E. subst v.
      split; [discriminate | intros H; exfalso; apply H; left; reflexivity].
    + rewrite IH. split.
      * intros H [Hv | Hin]; [subst v; discriminate | exact (H Hin)].
      * intros H Hin. apply H. right. exact Hin.
Qed.

Lemma first_undefined_some (data : obj) (key : string) :
  first_undefined data = Some key ->
  exists before after,
    data = before ++ (key, VUndef) :: after
    /\ ~ In VUndef (values before).
Proof.
  induction data as [| [k v] data IH]; cbn [first_undefined]; [discriminate |].
  destruct (is_undefined v) eqn:E.
  - intros H. injection H as ->. apply is_undefined_true in E. subst v.
    exists [], data. split; [reflexivity | intros []].
  - intros H. destruct (IH H) as (before & after & Hcut & Hdef).
    exists ((k, v) :: before), after. split; [rewrite Hcut; reflexivity |].
    cbn [values map snd In]. intros [Hv | Hin];
      [subst v; discriminate | exact (Hdef Hin)].
Qed.

(** X14. [insert] sends its statement exactly when no value of the record
    is [undefined] ([null] is a value).  Otherwise nothing is sent, the
    receiver and the world are untouched, and the error names the first
    column whose value is [undefined]. *)
Theorem insert_check_is_exact (drv : driver) (data : obj) (this : DB)
    (w : world) :
  (~ In VUndef (values data) ->
   sent (snd (snd (insert drv (Some data) (this, w))))
   = sent w ++ [EvExecute (route this) (insert_sql (keys data) this)
                  (values data)])
  /\ (In VUndef (values data) ->
      exists key before after,
        data = before ++ (key, VUndef) :: after
        /\ ~ In VUndef (values before)
        /\ insert drv (Some data) (this, w)
           = (Throw (Error ("INSERT[" ++ table this ++ "] failed: "
                              ++ "Undefined value for column: " ++ key
                              ++ "-undefined")),
              (this, w))).
Proof.
  split; intros H.
  - apply first_undefined_none in H.
    rewrite (insert_run drv data this w H). cbn [fst snd].
    rewrite sent_send, sent_logged. reflexivity.
  - destruct (first_undefined data) as [key |] eqn:E.
    + destruct (first_undefined_some data key E) as (before & after & Hcut & Hdef).
      exists key, before, after. repeat split; try assumption.
      apply insert_rejects. exact E.
    + apply first_undefined_none in E. contradiction.
Qed.

Lemma insert_check_is_exact_witness :
  sent (snd (snd (insert Fixtures.writer
                    (Some [("name", VStr "x"); ("email", VNull)])
                    (DB_table "users", Fixtures.fresh_world))))
  = [EvExecute OnPool (insert_sql ["name"; "email"] (DB_table "users"))
       [VStr "x"; VNull]]
  /\ exists key before after,
       [("name", VStr "x"); ("email", VUndef); ("role", VUndef)]
       = before ++ (key, VUndef) :: after
       /\ ~ In VUndef (values before)
       /\ insert Fixtures.writer
            (Some [("name", VStr "x"); ("email", VUndef); ("role", VUndef)])
            (DB_table "users", Fixtures.fresh_world)
          = (Throw (Error ("INSERT[" ++ table (DB_table "users") ++ "] failed: "
                             ++ "Undefined value for column: " ++ key
                             ++ "-undefined")),
             (DB_table "users", Fixtures.fresh_world)).
Proof.
  split.
  - destruct (insert_check_is_exact Fixtures.writer
                [("name", VStr "x"); ("email", VNull)] (DB_table "users")
                Fixtures.fresh_world) as [H _].
    apply H. cbn. intros [H1 | [H2 | []]]; discriminate.
  - destruct (insert_check_is_exact Fixtures.writer
                [("name", VStr "x"); ("email", VUndef); ("role", VUndef)]
                (DB_table "users") Fixtures.fresh_world) as [_ H].
    apply H. cbn. right. left. reflexivity.
Defined.

(** ** Reads *)

(** X15. [first] replaces whatever limit and offset were set by [LIMIT 1],
    sends one SELECT, and returns the first row the driver gives back, or
    [null] when there is none; the receiver is reset. *)
Theorem first_returns_head (drv : driver) (this : DB) (w : world)
    (rs : list obj) (f : option (list string)) :
  let this' := limit 1 None this in
  execute drv (sent w) (route this) (buildSelect this') (params this)
    = inr (Rows rs, f) ->
  first drv (this, w)
  = (Ret (hd_error rs),
     (reset this,
      send (EvExecute (route this) (buildSelect this') (params this))
           (logged (buildSelect this') (params this) w)))
  /\ limitVal this' = "LIMIT 1"
  /\ order this' = order this
  /\ where_clause this' = where_clause this.
Proof.
  intros this' H. rewrite first_run. cbv zeta. fold this'. rewrite H.
  cbn [fst]. repeat split.
Qed.

Lemma first_returns_head_witness :
  fst (first Fixtures.twenty_five
         (limit 5 (Some 10) Fixtures.active_users, Fixtures.fresh_world))
  = Ret (Some [("total", VNum 25)]).
Proof.
  destruct (first_returns_head Fixtures.twenty_five
              (limit 5 (Some 10) Fixtures.active_users) Fixtures.fresh_world
              [[("total", VNum 25)]] (Some ["total"]) eq_refl) as [H _].
  rewrite H. reflexivity.
Defined.

(** X16. [count] returns the [total] of the first row, and 0 when the
    driver gives no row; [exists] is true exactly when that number is
    positive.  Both send one COUNT statement and reset the receiver. *)
Theorem exists_iff_positive_count (drv : driver) (this : DB) (w : world)
    (rs : list obj) (f : option (list string)) (n : Z) :
  execute drv (sent w) (route this) (count_sql "*" this) (params this)
    = inr (Rows rs, f) ->
  match rs with
  | [] => n = 0
  | r :: _ => JS.prop "total" r = VNum n
  end ->
  fst (count drv None (this, w)) = Ret (VNum n)
  /\ fst (exists_ drv (this, w)) = Ret (0 <? n)
  /\ fst (snd (exists_ drv (this, w))) = reset this
  /\ sent (snd (snd (exists_ drv (this, w))))
     = sent w ++ [EvExecute (route this) (count_sql "*" this) (params this)].
Proof.
  intros Hx Hn.
  assert (Hc : count drv None (this, w)
               = (Ret (VNum n),
                  (reset this,
                   send (EvExecute (route this) (count_sql "*" this)
                           (params this))
                        (logged (count_sql "*" this) (params this) w)))).
  { rewrite count_run. cbv zeta. rewrite Hx. cbn [fst]. f_equal. f_equal.
    unfold total_of, first_row, or_else.
    destruct rs as [| r rs']; [subst n; reflexivity |].
    rewrite Hn. cbn [truthy].
    destruct (n =? 0) eqn:E; [apply Z.eqb_eq in E; subst n |]; reflexivity. }
  unfold exists_, bind. rewrite Hc. cbn [fst snd ret].
  rewrite sent_send, sent_logged. repeat split.
Qed.

Lemma exists_iff_positive_count_witness :
  fst (exists_ Fixtures.twenty_five
         (Fixtures.active_users, Fixtures.fresh_world)) = Ret true
  /\ fst (exists_ Fixtures.quiet
            (Fixtures.active_users, Fixtures.fresh_world)) = Ret false.
Proof.
  split.
  - destruct (exists_iff_positive_count Fixtures.twenty_five
                Fixtures.active_users Fixtures.fresh_world
                [[("total", VNum 25)]] (Some ["total"]) 25 eq_refl eq_refl)
      as (_ & H & _).
    exact H.
  - destruct (exists_iff_positive_count Fixtures.quiet
                Fixtures.active_users Fixtures.fresh_world
                [] None 0 eq_refl eq_refl)
      as (_ & H & _).
    exact H.
Defined.

(** ** Driver failures *)

(** X17. When the driver fails a statement, [get], [count], [insert] and
    [insertBulk] throw a new error whose message is their marker followed
    by the driver's message; the other fields of the driver's error are
    not carried over.  [get] and [count] still reset the receiver. *)
Theorem driver_failure_is_wrapped (drv : driver) (this : DB) (w : world)
    (e : error) (data : obj) (row0 : obj) (rest : list obj) :
  (forall t sql ps, execute drv (sent w) t sql ps = inl e) ->
  first_undefined data = None ->
  check_rows (keys row0) 0 (row0 :: rest) = None ->
  (fst (get drv (this, w)) = Throw (Error ("GET failed: " ++ message e))
   /\ fst (snd (get drv (this, w))) = reset this)
  /\ (forall column,
        fst (count drv column (this, w))
        = Throw (Error ("COUNT failed: " ++ message e))
        /\ fst (snd (count drv column (this, w))) = reset this)
  /\ fst (insert drv (Some data) (this, w))
     = Throw (Error ("INSERT[" ++ table this ++ "] failed: " ++ message e))
  /\ fst (insertBulk drv (Some (RowArray (row0 :: rest))) (this, w))
     = Throw (Error ("BULK INSERT failed: " ++ message e)).
Proof.
  intros Hfail Hdata Hrows. repeat split.
  - rewrite get_run, Hfail. reflexivity.
  - rewrite get_run. reflexivity.
  - rewrite count_run. cbv zeta. rewrite Hfail. reflexivity.
  - rewrite count_run. reflexivity.
  - rewrite (insert_run drv data this w Hdata). cbv zeta. rewrite Hfail.
    reflexivity.
  - rewrite (insertBulk_run drv row0 rest this w Hrows). cbv zeta.
    rewrite Hfail. reflexivity.
Qed.

Lemma driver_failure_is_wrapped_witness :
  fst (get Fixtures.refusing (Fixtures.active_users, Fixtures.fresh_world))
  = Throw (mkError "GET failed: Duplicate entry" None).
Proof.
  destruct (driver_failure_is_wrapped Fixtures.refusing Fixtures.active_users
              Fixtures.fresh_world
              (mkError "Duplicate entry" (Some "ER_DUP_ENTRY"))
              [("name", VStr "x")] [("a", VNum 1)] [[("a", VNum 2)]])
    as [[H _] _]; [reflexivity | reflexivity | reflexivity | exact H].
Defined.

(** X18. When the driver fails a statement, [update], [delete], [truncate],
    [DB.sql] and [trx.sql] let the driver's error through as it is.
    [update] and [delete] still reset the receiver; [truncate] leaves it
    alone. *)
Theorem driver_failure_passes_through (drv : driver) (this : DB) (w : world)
    (e : error) :
  (forall t sql ps, execute drv (sent w) t sql ps = inl e) ->
  wheres this <> [] ->
  (forall data,
      fst (update drv (Some data) (this, w)) = Throw e
      /\ fst (snd (update drv (Some data) (this, w))) = reset this)
  /\ (fst (delete drv (this, w)) = Throw e
      /\ fst (snd (delete drv (this, w))) = reset this)
  /\ (fst (truncate drv (this, w)) = Throw e
      /\ fst (snd (truncate drv (this, w))) = this)
  /\ (forall query ps, fst (sql drv query (Some ps) w) = Throw e)
  /\ (forall c query ps,
        fst (trx_sql (make_trx drv c) query (Some ps) w) = Throw e).
Proof.
  intros Hfail Hw. repeat split.
  - rewrite (update_run drv _ this w Hw). cbv zeta. rewrite Hfail.
    reflexivity.
  - rewrite (update_run drv _ this w Hw). reflexivity.
  - rewrite (delete_run drv this w Hw). cbv zeta. rewrite Hfail. reflexivity.
  - rewrite (delete_run drv this w Hw). reflexivity.
  - rewrite truncate_run. cbv zeta. rewrite Hfail. reflexivity.
  - rewrite truncate_run. reflexivity.
  - intros query ps.
    unfold sql, bind, pool_execute, driver_execute. rewrite Hfail. reflexivity.
  - intros c query ps.
    unfold make_trx, trx_sql, conn_execute, driver_execute. rewrite Hfail.
    reflexivity.
Qed.

Lemma driver_failure_passes_through_witness :
  fst (delete Fixtures.refusing (Fixtures.active_users, Fixtures.fresh_world))
  = Throw (mkError "Duplicate entry" (Some "ER_DUP_ENTRY")).
Proof.
  destruct (driver_failure_passes_through Fixtures.refusing
              Fixtures.active_users Fixtures.fresh_world
              (mkError "Duplicate entry" (Some "ER_DUP_ENTRY")))
    as (_ & [H _] & _); [reflexivity | discriminate | exact H].
Defined.

(** X19. [paginate] has two ways to fail.  When the COUNT statement fails,
    the driver's error leaves as it is, only that statement was sent, and
    the receiver keeps its clauses.  When the COUNT succeeds and the data
    statement fails, the error is the one of [get] ("GET failed: ..."), two
    statements were sent, and the receiver is reset. *)
Theorem paginate_failures (drv : driver) (page per_page : Z) (this : DB)
    (w : world) :
  let this' := limit per_page (Some ((page - 1) * per_page)) this in
  let count_request :=
    EvExecute (route this) (paginate_count_sql this) (params this) in
  let data_request :=
    EvExecute (route this) (buildSelect this') (params this) in
  let run := paginate drv (Some page) (Some per_page) (this, w) in
  (forall e,
      execute drv (sent w) (route this) (paginate_count_sql this) (params this)
        = inl e ->
      fst run = Throw e
      /\ fst (snd run) = this
      /\ sent (snd (snd run)) = sent w ++ [count_request])
  /\ (forall c e,
        execute drv (sent w) (route this) (paginate_count_sql this)
          (params this) = inr c ->
        execute drv (sent w ++ [count_request]) (route this)
          (buildSelect this') (params this) = inl e ->
        fst run = Throw (Error ("GET failed: " ++ message e))
        /\ fst (snd run) = reset this
        /\ sent (snd (snd run)) = sent w ++ [count_request; data_request]).
Proof.
  intros this' count_request data_request run. subst run. split.
  - intros e He. rewrite (paginate_count_fails drv page per_page this w e He).
    cbn [fst snd]. rewrite sent_send, sent_logged. repeat split.
  - intros c e Hc Hd. rewrite (paginate_run drv page per_page this w c Hc).
    cbn [fst snd]. rewrite !sent_send, !sent_logged.
    fold this'. fold count_request. rewrite Hd. fold data_request.
    rewrite ?sent_send, ?sent_logged, <- app_assoc. repeat split.
Qed.

Lemma paginate_failures_witness :
  fst (snd (paginate Fixtures.refusing (Some 2) (Some 10)
              (Fixtures.active_users, Fixtures.fresh_world)))
  = Fixtures.active_users
  /\ fst (paginate Fixtures.count_only (Some 2) (Some 10)
            (Fixtures.active_users, Fixtures.fresh_world))
     = Throw (mkError "GET failed: Unknown column" None).
Proof.
  split.
  - destruct (paginate_failures Fixtures.refusing 2 10 Fixtures.active_users
                Fixtures.fresh_world) as [H _].
    destruct (H (mkError "Duplicate entry" (Some "ER_DUP_ENTRY")) eq_refl)
      as (_ & Hstate & _).
    exact Hstate.
  - destruct (paginate_failures Fixtures.count_only 2 10 Fixtures.active_users
                Fixtures.fresh_world) as [_ H].
    destruct (H (Rows [[("total", VNum 25)]], Some ["total"])
                (mkError "Unknown column" (Some "ER_BAD_FIELD_ERROR"))
                eq_refl eq_refl) as (Hout & _).
    exact Hout.
Defined.

(** ** The debug log *)

(** X20. With [DB.debug] on, [_execute] prints exactly one record, the
    normalized statement with its parameters, before it sends the
    statement; with the flag off it prints nothing.  It never changes the
    flag.  The raw entry points [DB.sql] and [trx.sql] do not go through
    [_execute] and print nothing even with the flag on. *)
Theorem debug_prints_one_record (drv : driver) (stmt : string)
    (ps : list value) (this : DB) (w : world) (c : conn) :
  console (snd (snd (_execute drv stmt (Some ps) (this, w))))
  = (if debug w then console w ++ [(normalize stmt, ps)] else console w)
  /\ debug (snd (snd (_execute drv stmt (Some ps) (this, w)))) = debug w
  /\ console (snd (sql drv stmt (Some ps) w)) = console w
  /\ console (snd (trx_sql (make_trx drv c) stmt (Some ps) w)) = console w.
Proof.
  rewrite _execute_run. cbn [fst snd]. unfold logged.
  split; [destruct (debug w); reflexivity |].
  split; [destruct (debug w) eqn:E; cbn [debug send print]; exact E |].
  split; [| reflexivity].
  unfold sql, bind, pool_execute, driver_execute.
  destruct (execute drv (sent w) OnPool stmt ps); reflexivity.
Qed.

Lemma solid_rev_string (acc s : string) :
  solid (rev_string acc s) = rev_string (solid acc) (solid s).
Proof.
  revert acc. induction s as [| ch s IH]; intros acc; [reflexivity |].
  cbn [rev_string solid]. rewrite IH. cbn [solid].
  destruct (is_space ch); reflexivity.
Qed.

Lemma rev_string_twice (a b s : string) :
  rev_string a (rev_string b s) = rev_string (s ++ a)%string b.
Proof.
  revert a b. induction s as [| ch s IH]; intros a b; [reflexivity |].
  cbn [rev_string]. rewrite IH. reflexivity.
Qed.

Lemma solid_trim_left (s : string) : solid (trim_left s) = solid s.
Proof.
  induction s as [| ch s IH]; [reflexivity |].
  cbn [trim_left solid]. destruct (is_space ch) eqn:E; [exact IH |].
  cbn [solid]. rewrite E. reflexivity.
Qed.

Lemma solid_collapse (in_run : bool) (s : string) :
  solid (collapse in_run s) = solid s.
Proof.
  revert in_run. induction s as [| ch s IH]; intros in_run; [reflexivity |].
  cbn [collapse solid]. destruct (is_space ch) eqn:E.
  - destruct in_run; [apply IH |]. cbn [solid].
    change (is_space " ") with true. cbv iota. apply IH.
  - cbn [solid]. rewrite E, IH. reflexivity.
Qed.

Lemma one_line_collapse (in_run : bool) (s : string) :
  one_line (collapse in_run s) = true.
Proof.
  revert in_run. induction s as [| ch s IH]; intros in_run; [reflexivity |].
  cbn [collapse]. destruct (is_space ch) eqn:E.
  - destruct in_run; [apply IH |]. cbn [one_line]. rewrite IH. reflexivity.
  - cbn [one_line]. rewrite E, IH. reflexivity.
Qed.

Lemma one_line_trim_left (s : string) :
  one_line s = true -> one_line (trim_left s) = true.
Proof.
  induction s as [| ch s IH]; [reflexivity |].
  cbn [trim_left]. destruct (is_space ch) eqn:E; [| trivial].
  cbn [one_line]. intros H. apply andb_true_iff in H. apply IH, H.
Qed.

Lemma one_line_rev_string (acc s : string) :
  one_line acc = true -> one_line s = true ->
  one_line (rev_string acc s) = true.
Proof.
  revert acc. induction s as [| ch s IH]; intros acc Ha Hs; [exact Ha |].
  cbn [rev_string]. cbn [one_line] in Hs. apply andb_true_iff in Hs.
  destruct Hs as [Hc Hs]. apply IH; [| exact Hs].
  cbn [one_line]. rewrite Hc, Ha. reflexivity.
Qed.

(** X21. The text printed for a statement keeps every character of the
    statement that is not white space, in order, and the only white space
    it contains is the single blank: the log record is one line. *)
Theorem normalize_keeps_text (stmt : string) :
  solid (normalize stmt) = solid stmt
  /\ one_line (normalize stmt) = true.
Proof.
  unfold normalize, trim. split.
  - rewrite solid_rev_string, solid_trim_left, solid_rev_string,
      solid_trim_left, solid_collapse.
    cbn [solid]. rewrite rev_string_twice. cbn [rev_string].
    apply text_app_nil.
  - apply one_line_rev_string; [reflexivity |].
    apply one_line_trim_left. apply one_line_rev_string; [reflexivity |].
    apply one_line_trim_left. apply one_line_collapse.
Qed.

(** ** Pagination with a page size of zero *)



(** ** Statements that ignore the accumulated clauses *)

(** X23. [truncate] and [insert] compile from the table name alone:
    whatever clauses were chained before them, predicates included, the
    statement and the parameters they send are those of a fresh builder.
    A [where] before [truncate] does not narrow it. *)
Theorem truncate_and_insert_ignore_clauses (drv : driver) (cs : list clause)
    (data : obj) (this : DB) (w : world) :
  sent (snd (snd (truncate drv (chain cs this, w))))
  = sent w ++ [EvExecute (route this) ("TRUNCATE TABLE " ++ table this) []]
  /\ (first_undefined data = None ->
      sent (snd (snd (insert drv (Some data) (chain cs this, w))))
      = sent w ++ [EvExecute (route this) (insert_sql (keys data) this)
                     (values data)]).
Proof.
  destruct (chain_keeps_table cs this) as [Ht Hx].
  assert (Hroute : route (chain cs this) = route this)
    by (unfold route; rewrite Hx; reflexivity).
  split.
  - rewrite truncate_run. cbn [fst snd].
    rewrite sent_send, sent_logged, Hroute, Ht. reflexivity.
  - intros Hdef. rewrite (insert_run drv data (chain cs this) w Hdef).
    cbn [fst snd]. rewrite sent_send, sent_logged, Hroute.
    unfold insert_sql. rewrite Ht. reflexivity.
Qed.

Lemma truncate_and_insert_ignore_clauses_witness :
  sent (snd (snd (insert Fixtures.writer (Some [("name", VStr "x")])
                    (chain [Where "id" "=" (VNum 1); Limit 1 None]
                       (DB_table "users"), Fixtures.fresh_world))))
  = [EvExecute OnPool (insert_sql ["name"] (DB_table "users")) [VStr "x"]].
Proof.
  destruct (truncate_and_insert_ignore_clauses Fixtures.writer
              [Where "id" "=" (VNum 1); Limit 1 None] [("name", VStr "x")]
              (DB_table "users") Fixtures.fresh_world) as [_ H].
  exact (H eq_refl).
Defined.

(** X24. The COUNT statements of [count] and [paginate] depend on the
    table, the joins and the predicates only: [select], [orderBy] and
    [limit] calls anywhere in the chain leave them as they are. *)
Theorem count_ignores_select_order_limit (cs : list clause)
    (column : string) (this : DB) :
  forallb (fun c => is_select c || is_orderBy c || is_limit c) cs = true ->
  count_sql column (chain cs this) = count_sql column this
  /\ paginate_count_sql (chain cs this) = paginate_count_sql this
  /\ params (chain cs this) = params this.
Proof.
  intros H.
  assert (Hkeep : forall X (f : DB -> X),
             (forall c b, is_select c || is_orderBy c || is_limit c = true ->
                          f (call c b) = f b) ->
             f (chain cs this) = f this).
  { intros X f Hf. apply chain_keeps. intros c b Hin. apply Hf.
    rewrite forallb_forall in H. apply H. exact Hin. }
  assert (Ht : table (chain cs this) = table this)
    by apply chain_keeps_table.
  assert (Hj : joins (chain cs this) = joins this).
  { apply Hkeep. intros c b Hc. destruct c; try discriminate; reflexivity. }
  assert (Hw : wheres (chain cs this) = wheres this).
  { apply Hkeep. intros c b Hc. destruct c; try discriminate; reflexivity. }
  assert (Hp : params (chain cs this) = params this).
  { apply Hkeep. intros c b Hc. destruct c; try discriminate; reflexivity. }
  unfold count_sql, paginate_count_sql, where_clause.
  rewrite Ht, Hj, Hw. repeat split. exact Hp.
Qed.

Lemma count_ignores_select_order_limit_witness :
  count_sql "*"
    (chain [Select (Some (ColText "id")); OrderBy "id" None; Limit 5 None]
       Fixtures.active_users)
  = count_sql "*" Fixtures.active_users.
Proof.
  destruct (count_ignores_select_order_limit
              [Select (Some (ColText "id")); OrderBy "id" None; Limit 5 None]
              "*" Fixtures.active_users eq_refl) as [H _].
  exact H.
Defined.

(** ** Last page and offsets *)

(** X25. For a total [t >= 0] and a page size [n >= 1], [lastPage] is a
    whole number, zero exactly when there is no row, and it agrees with the
    offsets [paginate] computes: the offset [(p - 1) * n] of a page
    [p >= 1] lies below the total exactly when [p <= lastPage]. *)
Theorem lastPage_bounds_offsets (t n : Z) :
  0 <= t -> 1 <= n ->
  exists pages,
    ceil_div (VNum t) n = JFin pages
    /\ (pages = 0 <-> t = 0)
    /\ forall p, 1 <= p -> ((p - 1) * n < t <-> p <= pages).
Proof.
  intros Ht Hn.
  destruct (ceil_div_pages t n Ht Hn) as (pages & Hceil & Hlo & Hhi).
  exists pages. split; [exact Hceil |]. split.
  - split; intros H; [subst pages; lia | subst t; nia].
  - intros p Hp. split; intros H; nia.
Qed.

Lemma lastPage_bounds_offsets_witness :
  exists pages,
    ceil_div (VNum 25) 10 = JFin pages
    /\ ((3 - 1) * 10 < 25 <-> 3 <= pages)
    /\ ((4 - 1) * 10 < 25 <-> 4 <= pages).
Proof.
  destruct (lastPage_bounds_offsets 25 10) as (pages & Hceil & _ & Hoff);
    [lia | lia |].
  exists pages. split; [exact Hceil |].
  split; apply Hoff; lia.
Defined.
